(** * obvious_cleanup: the four clean-up rules over a lib2to3-style syntax tree

    The program registers five (pattern, callback) pairs with a query
    object.  The callbacks are in [obvious_cleanup.py]; the tree, the
    pattern compiler and the matcher they rely on are those of the
    [pytree] / [patcomp] modules of the parsing library, embedded here as
    far as the callbacks and the five patterns use them. *)

From Stdlib Require Import String Ascii List Bool Arith NArith Lia.
Import ListNotations.
Open Scope string_scope.

Set Implicit Arguments.
Set Warnings "-register-all".

(** ** Strings *)

(** [str.isspace] on the ASCII range: TAB, LF, VT, FF, CR, FS..US, SPACE. *)
Definition isspace (c : ascii) : bool :=
  let n := nat_of_ascii c in
  (((9 <=? n) && (n <=? 13)) || ((28 <=? n) && (n <=? 32)))%nat.

Fixpoint lstrip (s : string) : string :=
  match s with
  | EmptyString => EmptyString
  | String c s' => if isspace c then lstrip s' else s
  end.

Fixpoint rstrip (s : string) : string :=
  match s with
  | EmptyString => EmptyString
  | String c s' =>
      match rstrip s' with
      | EmptyString => if isspace c then EmptyString else String c EmptyString
      | r => String c r
      end
  end.

(** [str.strip()] *)
Definition strip (s : string) : string := rstrip (lstrip s).

Definition LF : string := String (ascii_of_nat 10) EmptyString.

(** ** Token and symbol numbers

    [TOKEN] lists the token kinds of [pgen2/token.py] up to TILDE; [symbol]
    lists the grammar symbols that occur in the patterns, in the callbacks
    and in the trees used below. *)

Inductive TOKEN : Set :=
| ENDMARKER | NAME | NUMBER | STRING | NEWLINE | INDENT | DEDENT
| LPAR | RPAR | LSQB | RSQB | COLON | COMMA | SEMI | PLUS | MINUS | STAR
| SLASH | VBAR | AMPER | LESS | GREATER | EQUAL | DOT | PERCENT | BACKQUOTE
| LBRACE | RBRACE | EQEQUAL | NOTEQUAL | LESSEQUAL | GREATEREQUAL | TILDE.

Inductive symbol : Set :=
| file_input | simple_stmt | expr_stmt | return_stmt
| or_test | and_test | not_test | comparison | comp_op
| expr | arith_expr | term | factor | power | trailer | atom
| listmaker | testlist_gexp | dictsetmaker | arglist | argument
| exprlist | comp_for | comp_if.

Scheme Equality for TOKEN.
Scheme Equality for symbol.

(** ** The tree (pytree.Leaf / pytree.Node)

    A leaf keeps its token type, its text, the whitespace and comments in
    front of it, and the line it started on in the input ([lineno] is 0 for
    a leaf built by a callback; the column is never read by the program and
    is left out).  A node keeps its symbol and its children; its prefix is
    that of its first leaf. *)

Inductive tree : Type :=
| Leaf (type : TOKEN) (value : string) (prefix : string) (lineno : nat)
| Node (type : symbol) (children : list tree).

(** [Leaf.__str__] and [Node.__str__] *)
Fixpoint str (t : tree) : string :=
  match t with
  | Leaf _ v p _ => p ++ v
  | Node _ cs =>
      (fix cat (l : list tree) : string :=
         match l with
         | [] => EmptyString
         | c :: l' => str c ++ cat l'
         end) cs
  end.

(** the [prefix] property: getter *)
Fixpoint get_prefix (t : tree) : string :=
  match t with
  | Leaf _ _ p _ => p
  | Node _ [] => EmptyString
  | Node _ (c :: _) => get_prefix c
  end.

(** the [prefix] property: setter *)
Fixpoint set_prefix (t : tree) (p : string) : tree :=
  match t with
  | Leaf ty v _ ln => Leaf ty v p ln
  | Node ty [] => Node ty []
  | Node ty (c :: cs) => Node ty (set_prefix c p :: cs)
  end.

(** [clone]: a deep copy; a leaf keeps the line number of its original *)
Fixpoint clone (t : tree) : tree :=
  match t with
  | Leaf ty v p ln => Leaf ty v p ln
  | Node ty cs => Node ty (map clone cs)
  end.

(** [Base.get_lineno]: the line of the first leaf; [None] for a node
    without children. *)
Fixpoint get_lineno (t : tree) : option nat :=
  match t with
  | Leaf _ _ _ ln => Some ln
  | Node _ [] => None
  | Node _ (c :: _) => get_lineno c
  end.

Definition children (t : tree) : list tree :=
  match t with
  | Leaf _ _ _ _ => []
  | Node _ cs => cs
  end.

(** [Node(type, children, prefix=p)]: the constructor sets the prefix only
    when one is given. *)
Definition mkNode (ty : symbol) (cs : list tree) (p : option string) : tree :=
  match p with
  | None => Node ty cs
  | Some p' => set_prefix (Node ty cs) p'
  end.

(** ** References into the tree

    The callbacks hold references to nodes of the tree they rewrite and
    change the tree through them.  A reference is the path of child indices
    from the matched node down to the node it names; [[]] is the matched
    node itself. *)

Definition path := list nat.

Fixpoint subtree (t : tree) (p : path) : option tree :=
  match p with
  | [] => Some t
  | i :: p' =>
      match nth_error (children t) i with
      | Some c => subtree c p'
      | None => None
      end
  end.

Fixpoint list_set (A : Type) (l : list A) (i : nat) (x : A) : list A :=
  match l, i with
  | [], _ => []
  | _ :: l', O => x :: l'
  | y :: l', S i' => y :: list_set l' i' x
  end.

(** [old.replace(new)], [old] being the node at path [p] below [t] *)
Fixpoint replace_at (t : tree) (p : path) (new : tree) : option tree :=
  match p with
  | [] => Some new
  | i :: p' =>
      match t with
      | Leaf _ _ _ _ => None
      | Node ty cs =>
          match nth_error cs i with
          | None => None
          | Some c =>
              match replace_at c p' new with
              | None => None
              | Some c' => Some (Node ty (list_set cs i c'))
              end
          end
      end
  end.

(** [node.type = ty]; the program assigns a symbol, and only to a node
    captured by a node pattern. *)
Definition retype (t : tree) (ty : symbol) : tree :=
  match t with
  | Leaf _ _ _ _ => t
  | Node _ cs => Node ty cs
  end.

(** ** Captures

    The matcher binds a capture name either to one node or to a list of
    nodes; which one depends on the kind of pattern that carries the name
    (see [generate_matches]).  The dict of captures is kept as a list of
    bindings with one binding per key. *)

Inductive cval : Type :=
| CNode (p : path)
| CList (ps : list path).

Definition results := list (string * cval).

Fixpoint dict_get (d : results) (k : string) : option cval :=
  match d with
  | [] => None
  | (k', v) :: d' => if String.eqb k k' then Some v else dict_get d' k
  end.

Fixpoint dict_set (k : string) (v : cval) (d : results) : results :=
  match d with
  | [] => [(k, v)]
  | (k', v') :: d' =>
      if String.eqb k k' then (k, v) :: d' else (k', v') :: dict_set k v d'
  end.

(** [d.update(r)] *)
Definition update (d r : results) : results :=
  fold_left (fun acc kv => dict_set (fst kv) (snd kv) acc) r d.

(** ** Patterns (pytree.LeafPattern, NodePattern, WildcardPattern) *)

Definition HUGE : N := 2147483647%N.

Inductive Pattern : Type :=
| LeafPattern (type : option TOKEN) (content : option string)
              (name : option string)
| NodePattern (type : option symbol) (content : option (list Pattern))
              (name : option string)
| WildcardPattern (content : option (list (list Pattern))) (min max : N)
                  (name : option string).

Definition pattern_name (p : Pattern) : option string :=
  match p with
  | LeafPattern _ _ n => n
  | NodePattern _ _ n => n
  | WildcardPattern _ _ _ n => n
  end.

Definition set_name (p : Pattern) (n : option string) : Pattern :=
  match p with
  | LeafPattern t c _ => LeafPattern t c n
  | NodePattern t c _ => NodePattern t c n
  | WildcardPattern c mn mx _ => WildcardPattern c mn mx n
  end.

Definition name_eqb (a b : option string) : bool :=
  match a, b with
  | None, None => true
  | Some x, Some y => String.eqb x y
  | _, _ => false
  end.

Definition is_wildcard (p : Pattern) : bool :=
  match p with
  | WildcardPattern _ _ _ _ => true
  | _ => false
  end.

(** [WildcardPattern.optimize]; the other patterns return themselves. *)
Fixpoint optimize (p : Pattern) : Pattern :=
  match p with
  | WildcardPattern content mn mx name =>
      let stacked :=
        match content with
        | Some [[WildcardPattern c' mn' mx' name']] =>
            if (mn <=? 1)%N && (mn' <=? 1)%N && name_eqb name name'
            then WildcardPattern c' (mn * mn') (mx * mx') name'
            else p
        | _ => p
        end in
      if (mn =? 1)%N && (mx =? 1)%N then
        match content with
        | None => NodePattern None None name
        | Some [[sub]] =>
            if name_eqb name (pattern_name sub) then optimize sub else stacked
        | Some _ => stacked
        end
      else stacked
  | _ => p
  end.

(** ** The matcher *)

(** The nodes handed to a pattern, each with its reference. *)
Definition nodes := list (path * tree).

Fixpoint number (pos : path) (i : nat) (cs : list tree) : nodes :=
  match cs with
  | [] => []
  | c :: cs' => ((pos ++ [i])%list, c) :: number pos (S i) cs'
  end.

(** the children of the node at [pos], each with its reference *)
Definition kids (pos : path) (n : tree) : nodes := number pos 0 (children n).

Definition bind_name (name : option string) (v : cval) (r : results) : results :=
  match name with
  | Some n => dict_set n v r
  | None => r
  end.

Definition generator := nodes -> list (nat * results).

(** the module-level [generate_matches(patterns, nodes)] *)
Fixpoint seq_matches (gs : list generator) (ns : nodes) : list (nat * results) :=
  match gs with
  | [] => [(0, [])]
  | g :: rest =>
      flat_map
        (fun cr0 : nat * results =>
           match rest with
           | [] => [cr0]
           | _ :: _ =>
               map (fun cr1 : nat * results =>
                      (fst cr0 + fst cr1, update (update [] (snd cr0)) (snd cr1)))
                   (seq_matches rest (skipn (fst cr0) ns))
           end)
        (g ns)
  end.

(** [WildcardPattern._recursive_matches(nodes, count)].  The Python
    generator recurses once per repetition; [fuel] bounds the number of
    repetitions and is taken as [S (length nodes)], which is exact whenever
    every alternative consumes at least one node or [max] is reached
    first, as in all patterns of the program. *)
Fixpoint recursive_matches (fuel : nat) (alts : list (list generator))
         (mn mx : N) (ns : nodes) (count : nat) : list (nat * results) :=
  ((if (mn <=? N.of_nat count)%N then [(0, [])] else []) ++
   if (N.of_nat count <? mx)%N then
     match fuel with
     | O => []
     | S fuel' =>
         flat_map
           (fun alt =>
              flat_map
                (fun cr0 : nat * results =>
                   map (fun cr1 : nat * results =>
                          (fst cr0 + fst cr1,
                           update (update [] (snd cr0)) (snd cr1)))
                       (recursive_matches fuel' alts mn mx
                                          (skipn (fst cr0) ns) (S count)))
                (seq_matches alt ns))
           alts
     end
   else [])%list.

(** [subpattern.match(child, results)] for a leaf or node pattern, through
    its generator: [BasePattern.generate_matches] yields the match of the
    first node, if any. *)
Definition match_one (g : generator) (n : path * tree) : option results :=
  match g [n] with
  | [] => None
  | cr :: _ => Some (snd cr)
  end.

Fixpoint match_zip (gs : list generator) (ns : nodes) (acc : results)
  : option results :=
  match gs, ns with
  | [], [] => Some acc
  | g :: gs', n :: ns' =>
      match match_one g n with
      | None => None
      | Some r => match_zip gs' ns' (update acc r)
      end
  | _, _ => None
  end.

(** [NodePattern._submatch] *)
Definition submatch (wildcards : bool) (gs : list generator) (ns : nodes)
  : option results :=
  if wildcards then
    match find (fun cr : nat * results => Nat.eqb (fst cr) (length ns))
               (seq_matches gs ns) with
    | Some cr => Some (snd cr)
    | None => None
    end
  else match_zip gs ns [].

Definition type_is (ty : option symbol) (n : tree) : bool :=
  match ty with
  | None => true
  | Some s =>
      match n with
      | Node s' _ => symbol_beq s s'
      | Leaf _ _ _ _ => false
      end
  end.

Definition leaf_is (ty : option TOKEN) (content : option string) (n : tree)
  : bool :=
  match n with
  | Node _ _ => false
  | Leaf ty' v _ _ =>
      match ty with None => true | Some t => TOKEN_beq t ty' end &&
      match content with None => true | Some c => String.eqb c v end
  end.

(** [LeafPattern.generate_matches] (through [BasePattern.match]) *)
Definition leaf_gen (ty : option TOKEN) (content : option string)
           (name : option string) : generator :=
  fun ns =>
    match ns with
    | [] => []
    | (pos, n) :: _ =>
        if leaf_is ty content n
        then [(1, bind_name name (CNode pos) [])]
        else []
    end.

(** [NodePattern.generate_matches] (through [BasePattern.match]), given
    the generators of the content patterns and whether one of them is a
    wildcard pattern. *)
Definition node_gen (ty : option symbol)
           (content : option (bool * list generator))
           (name : option string) : generator :=
  fun ns =>
    match ns with
    | [] => []
    | (pos, n) :: _ =>
        if type_is ty n then
          match content with
          | None => [(1, bind_name name (CNode pos) [])]
          | Some (wildcards, gs) =>
              match submatch wildcards gs (kids pos n) with
              | Some r => [(1, bind_name name (CNode pos) r)]
              | None => []
              end
          end
        else []
    end.

(** [WildcardPattern.generate_matches], given the generators of the
    patterns of each alternative. *)
Definition wild_gen (content : option (list (list generator))) (mn mx : N)
           (name : option string) : generator :=
  fun ns =>
    match content with
    | None =>
        map (fun c => (c, bind_name name (CList (map fst (firstn c ns))) []))
            (filter (fun c => (mn <=? N.of_nat c)%N && (N.of_nat c <=? mx)%N)
                    (seq 0 (S (length ns))))
    | Some alts =>
        map (fun cr : nat * results =>
               (fst cr,
                bind_name name (CList (map fst (firstn (fst cr) ns))) (snd cr)))
            (recursive_matches (S (length ns)) alts mn mx ns 0)
    end.

(** [p.generate_matches(nodes)]: the matches of [p] against a prefix of
    [nodes], as (number of nodes matched, captures), in the order in which
    the Python generators yield them.  A leaf or node pattern binds its
    name to the node; a wildcard pattern binds its name to the list of
    nodes it matched. *)
Fixpoint generate_matches (p : Pattern) {struct p} : generator :=
  match p with
  | LeafPattern ty content name => leaf_gen ty content name
  | NodePattern ty content name =>
      node_gen ty
               (match content with
                | None => None
                | Some ps =>
                    Some (existsb is_wildcard ps, map generate_matches ps)
                end)
               name
  | WildcardPattern content mn mx name =>
      wild_gen (match content with
                | None => None
                | Some alts => Some (map (map generate_matches) alts)
                end)
               mn mx name
  end.

(** [WildcardPattern.match_seq] *)
Definition match_seq (p : Pattern) (ns : nodes) : option results :=
  match find (fun cr : nat * results => Nat.eqb (fst cr) (length ns))
             (generate_matches p ns) with
  | Some cr => Some (bind_name (pattern_name p) (CList (map fst ns)) (snd cr))
  | None => None
  end.

(** [BaseFix.match(node)]: the captures of the pattern at [node], with the
    matched node itself under the key "node". *)
Definition pattern_match (p : Pattern) (node : tree) : option results :=
  let start := [("node", CNode [])] in
  match p with
  | WildcardPattern _ _ _ _ =>
      match match_seq p [([], node)] with
      | Some r => Some (update start r)
      | None => None
      end
  | _ =>
      match match_one (generate_matches p) ([], node) with
      | Some r => Some (update start r)
      | None => None
      end
  end.

(** ** The pattern compiler (patcomp.PatternCompiler)

    A pattern is written in the pattern language; [Unit] is its syntax
    tree as the pattern grammar gives it: an optional capture name, then a
    string literal, a name with optional details [< ... >], a parenthesised
    group or a bracketed optional group, then an optional repeater.
    Alternatives are lists of alternatives, an alternative is a list of
    units. *)

Inductive Repeater : Type :=
| RStar
| RPlus
| RBraces (lo hi : N).

Inductive Unit : Type :=
| UString (name : option string) (lit : string) (rep : option Repeater)
| UName (name : option string) (id : string)
        (details : option (list (list Unit))) (rep : option Repeater)
| UParen (name : option string) (alts : list (list Unit))
         (rep : option Repeater)
| UBracket (name : option string) (alts : list (list Unit)).

Definition isalpha (c : ascii) : bool :=
  let n := nat_of_ascii c in
  (((65 <=? n) && (n <=? 90)) || ((97 <=? n) && (n <=? 122)))%nat.

Definition islower_char (c : ascii) : bool :=
  let n := nat_of_ascii c in ((97 <=? n) && (n <=? 122))%nat.

Definition isupper_char (c : ascii) : bool :=
  let n := nat_of_ascii c in ((65 <=? n) && (n <=? 90))%nat.

Fixpoint string_forallb (f : ascii -> bool) (s : string) : bool :=
  match s with
  | EmptyString => true
  | String c s' => f c && string_forallb f s'
  end.

(** [str.isupper()]: no lower-case letter and at least one upper-case one *)
Definition isupper (s : string) : bool :=
  string_forallb (fun c => negb (islower_char c)) s &&
  negb (string_forallb (fun c => negb (isupper_char c)) s).

(** [grammar.opmap], for the operators within [TOKEN] *)
Definition opmap : list (string * TOKEN) :=
  [ ("(", LPAR); (")", RPAR); ("[", LSQB); ("]", RSQB); (":", COLON);
    (",", COMMA); (";", SEMI); ("+", PLUS); ("-", MINUS); ("*", STAR);
    ("/", SLASH); ("|", VBAR); ("&", AMPER); ("<", LESS); (">", GREATER);
    ("=", EQUAL); (".", DOT); ("%", PERCENT); ("`", BACKQUOTE);
    ("{", LBRACE); ("}", RBRACE); ("==", EQEQUAL); ("!=", NOTEQUAL);
    ("<>", NOTEQUAL); ("<=", LESSEQUAL); (">=", GREATEREQUAL); ("~", TILDE) ].

Fixpoint assoc (A : Type) (l : list (string * A)) (k : string) : option A :=
  match l with
  | [] => None
  | (k', v) :: l' => if String.eqb k k' then Some v else assoc l' k
  end.

(** [_type_of_literal] *)
Definition type_of_literal (value : string) : option TOKEN :=
  match value with
  | String c _ => if isalpha c then Some NAME else assoc opmap value
  | EmptyString => None
  end.

Definition TOKEN_MAP : list (string * option TOKEN) :=
  [ ("NAME", Some NAME); ("STRING", Some STRING); ("NUMBER", Some NUMBER);
    ("TOKEN", None) ].

(** [pygram.python_symbols], by name *)
Definition python_symbols : list (string * symbol) :=
  [ ("file_input", file_input); ("simple_stmt", simple_stmt);
    ("expr_stmt", expr_stmt); ("return_stmt", return_stmt);
    ("or_test", or_test); ("and_test", and_test); ("not_test", not_test);
    ("comparison", comparison); ("comp_op", comp_op); ("expr", expr);
    ("arith_expr", arith_expr); ("term", term); ("factor", factor);
    ("power", power); ("trailer", trailer); ("atom", atom);
    ("listmaker", listmaker); ("testlist_gexp", testlist_gexp);
    ("dictsetmaker", dictsetmaker); ("arglist", arglist);
    ("argument", argument); ("exprlist", exprlist);
    ("comp_for", comp_for); ("comp_if", comp_if) ].

Definition repeat_bounds (r : Repeater) : N * N :=
  match r with
  | RStar => (0%N, HUGE)
  | RPlus => (1%N, HUGE)
  | RBraces lo hi => (lo, hi)
  end.

(** the tail of [compile_node] for a unit: repeater, name, optimize *)
Definition finish_unit (name : option string) (rep : option Repeater)
           (pattern : Pattern) : Pattern :=
  let repeated :=
    match rep with
    | None => pattern
    | Some r =>
        let (mn, mx) := repeat_bounds r in
        if (mn =? 1)%N && (mx =? 1)%N then pattern
        else WildcardPattern (Some [[optimize pattern]]) mn mx None
    end in
  optimize (match name with
            | None => repeated
            | Some n => set_name repeated (Some n)
            end).

(** [compile_node] on an Alternative, given its compiled units *)
Definition join_units (units : list Pattern) : Pattern :=
  match units with
  | [u] => u
  | _ => optimize (WildcardPattern (Some [units]) 1 1 None)
  end.

(** [compile_node] on Alternatives, given its compiled alternatives *)
Definition join_alts (alts : list Pattern) : Pattern :=
  match alts with
  | [a] => a
  | _ => optimize (WildcardPattern (Some (map (fun a => [a]) alts)) 1 1 None)
  end.

(** [compile_node] on a unit; [None] stands for PatternSyntaxError. *)
Fixpoint compile_unit (u : Unit) {struct u} : option Pattern :=
  let compile_alternatives :=
    fix alternatives (l : list (list Unit)) : option (list Pattern) :=
      match l with
      | [] => Some []
      | a :: l' =>
          match (fix units (us : list Unit) : option (list Pattern) :=
                   match us with
                   | [] => Some []
                   | u' :: us' =>
                       match compile_unit u', units us' with
                       | Some q, Some qs => Some (q :: qs)
                       | _, _ => None
                       end
                   end) a, alternatives l' with
          | Some qs, Some rest => Some (join_units qs :: rest)
          | _, _ => None
          end
      end in
  match u with
  | UString name lit rep =>
      Some (finish_unit name rep
                        (LeafPattern (type_of_literal lit) (Some lit) None))
  | UName name id details rep =>
      if isupper id then
        match assoc TOKEN_MAP id, details with
        | Some ty, None => Some (finish_unit name rep (LeafPattern ty None None))
        | _, _ => None
        end
      else
        match (if String.eqb id "any" then Some None
               else option_map Some (assoc python_symbols id)) with
        | None => None
        | Some ty =>
            match details with
            | None => Some (finish_unit name rep (NodePattern ty None None))
            | Some d =>
                match compile_alternatives d with
                | Some alts =>
                    Some (finish_unit name rep
                                      (NodePattern ty (Some [join_alts alts]) None))
                | None => None
                end
            end
        end
  | UParen name alts rep =>
      match compile_alternatives alts with
      | Some a => Some (finish_unit name rep (join_alts a))
      | None => None
      end
  | UBracket name alts =>
      match compile_alternatives alts with
      | Some a =>
          Some (finish_unit name None
                            (WildcardPattern (Some [[join_alts a]]) 0 1 None))
      | None => None
      end
  end.

Fixpoint all_some (A : Type) (l : list (option A)) : option (list A) :=
  match l with
  | [] => Some []
  | None :: _ => None
  | Some x :: l' =>
      match all_some l' with
      | Some xs => Some (x :: xs)
      | None => None
      end
  end.

Definition compile_alternative (us : list Unit) : option Pattern :=
  option_map join_units (all_some (map compile_unit us)).

(** [compile_pattern]: a whole pattern is a list of alternatives. *)
Definition compile_pattern (src : list (list Unit)) : option Pattern :=
  option_map join_alts (all_some (map compile_alternative src)).

(** ** The patterns of the program

    Each pattern of [main] is transcribed unit by unit; [lit], [sym],
    [any_] and the like only shorten the constructors. *)

Definition lit (s : string) : Unit := UString None s None.
Definition any_ : Unit := UName None "any" None None.
Definition any_star : Unit := UName None "any" None (Some RStar).
Definition sym (id : string) (details : list (list Unit)) : Unit :=
  UName None id (Some details) None.
Definition bare (id : string) : Unit := UName None id None None.
Definition named (n : string) (u : Unit) : Unit :=
  match u with
  | UString _ l r => UString (Some n) l r
  | UName _ i d r => UName (Some n) i d r
  | UParen _ a r => UParen (Some n) a r
  | UBracket _ a => UBracket (Some n) a
  end.
Definition group (alts : list (list Unit)) : Unit := UParen None alts None.
Definition optional (alts : list (list Unit)) : Unit := UBracket None alts.

(** [not_test< "not" comparison=comparison< any* > >] *)
Definition select_not : list (list Unit) :=
  [[ sym "not_test"
         [[ lit "not"; named "comparison" (sym "comparison" [[ any_star ]]) ]] ]].

(** [comparison=comparison<
       ( a=any op=( "==" | "!=" ) none="None" )
       | ( none="None" op=( "==" | "!=" ) a=any ) >] *)
Definition select_none : list (list Unit) :=
  [[ named "comparison"
       (sym "comparison"
            [ [ group [[ named "a" any_;
                         named "op" (group [[lit "=="]; [lit "!="]]);
                         named "none" (lit "None") ]] ];
              [ group [[ named "none" (lit "None");
                         named "op" (group [[lit "=="]; [lit "!="]]);
                         named "a" any_ ]] ] ]) ]].

(** [forloop=( comp_for< any* "in" any [ ifpart=comp_if< any* > ] > )] *)
Definition forloop_src : Unit :=
  named "forloop"
    (group [[ sym "comp_for"
                  [[ any_star; lit "in"; any_;
                     optional [[ named "ifpart" (sym "comp_if" [[ any_star ]]) ]] ]] ]]).

(** [kv=atom< "(" testlist_gexp< k=any "," v=any > ")" >] *)
Definition kv_src : Unit :=
  named "kv"
    (sym "atom"
         [[ lit "("; sym "testlist_gexp" [[ named "k" any_; lit ","; named "v" any_ ]];
            lit ")" ]]).

(** [power< "dict" trailer< '(' (
       atom< "[" listmaker< {kv} {forloop} > "]" >
       | argument< {kv} {forloop} >
       | atom< "(" testlist_gexp< {kv} {forloop} > ")" >
     ) ')' > >] *)
Definition select_dict : list (list Unit) :=
  [[ sym "power"
         [[ lit "dict";
            sym "trailer"
                [[ lit "(";
                   group [ [ sym "atom" [[ lit "["; sym "listmaker" [[ kv_src; forloop_src ]]; lit "]" ]] ];
                           [ sym "argument" [[ kv_src; forloop_src ]] ];
                           [ sym "atom" [[ lit "("; sym "testlist_gexp" [[ kv_src; forloop_src ]]; lit ")" ]] ] ];
                   lit ")" ]] ]] ]].

(** [power< "set" trailer< '(' (
       atom< "[" listmaker< arg=any {forloop} > "]" >
       | argument< arg=any {forloop} >
       | atom< "(" testlist_gexp< arg=any {forloop} > ")" >
     ) ')' > >] *)
Definition select_set : list (list Unit) :=
  [[ sym "power"
         [[ lit "set";
            sym "trailer"
                [[ lit "(";
                   group [ [ sym "atom" [[ lit "["; sym "listmaker" [[ named "arg" any_; forloop_src ]]; lit "]" ]] ];
                           [ sym "argument" [[ named "arg" any_; forloop_src ]] ];
                           [ sym "atom" [[ lit "("; sym "testlist_gexp" [[ named "arg" any_; forloop_src ]]; lit ")" ]] ] ];
                   lit ")" ]] ]] ]].

(** [( assignment_form=expr_stmt< any "=" outer=atom< "(" inner=any ")" > >
     | outer=atom< "("
         inner=(NAME | NUMBER | STRING | factor | atom< "(" any ")" >) ")" >
     | any< "(" outer=atom< "(" inner=testlist_gexp< any comp_for > ")" > ")" >
     )] *)
Definition select_parens : list (list Unit) :=
  [[ group
       [ [ named "assignment_form"
             (sym "expr_stmt"
                  [[ any_; lit "=";
                     named "outer" (sym "atom" [[ lit "("; named "inner" any_; lit ")" ]]) ]]) ];
         [ named "outer"
             (sym "atom"
                  [[ lit "(";
                     named "inner"
                       (group [ [bare "NAME"]; [bare "NUMBER"]; [bare "STRING"];
                                [bare "factor"];
                                [sym "atom" [[ lit "("; any_; lit ")" ]]] ]);
                     lit ")" ]]) ];
         [ sym "any"
               [[ lit "(";
                  named "outer"
                    (sym "atom"
                         [[ lit "(";
                            named "inner" (sym "testlist_gexp" [[ any_; bare "comp_for" ]]);
                            lit ")" ]]);
                  lit ")" ]] ] ] ]].

(** The compiled patterns; a pattern that did not compile would match
    nothing. *)
Definition compiled (src : list (list Unit)) : Pattern :=
  match compile_pattern src with
  | Some p => p
  | None => WildcardPattern None 1 0 None
  end.

Definition PATTERN_not : Pattern := Eval vm_compute in compiled select_not.
Definition PATTERN_none : Pattern := Eval vm_compute in compiled select_none.
Definition PATTERN_dict : Pattern := Eval vm_compute in compiled select_dict.
Definition PATTERN_set : Pattern := Eval vm_compute in compiled select_set.
Definition PATTERN_parens : Pattern := Eval vm_compute in compiled select_parens.

(** ** The state a callback runs in

    A callback is called with the matched node and the captures, and
    rewrites the tree in place.  The state holds the module-level [flags]
    dict, the matched node ([site]) and what is around it ([ctx], from the
    parent upwards: the parent's symbol and the siblings to the left and to
    the right).  A callback may raise, and may write lines to standard
    output.  When a callback replaces the matched node itself, the node
    object is taken out of the tree and stays as it is; [taken] keeps it,
    for the driver, whose walk goes on with that object. *)

Inductive exn : Set :=
| KeyError | IndexError | TypeError | AttributeError | AssertionError.

Record frame : Type :=
  { f_type : symbol; f_left : list tree; f_right : list tree }.

Record state : Type :=
  { flags : list (string * bool); ctx : list frame; site : tree;
    taken : option tree }.

Definition M (A : Type) : Type := state -> list string * (exn + A * state).

Definition ret (A : Type) (a : A) : M A := fun s => ([], inr (a, s)).

Definition raise (A : Type) (e : exn) : M A := fun _ => ([], inl e).

Definition bind (A B : Type) (m : M A) (f : A -> M B) : M B :=
  fun s =>
    match m s with
    | (o1, inl e) => (o1, inl e)
    | (o1, inr (a, s1)) =>
        match f a s1 with
        | (o2, r) => ((o1 ++ o2)%list, r)
        end
    end.

Notation "x <- m ;; k" := (bind m (fun x => k))
  (at level 61, m at next level, right associativity).
Notation "m ;; k" := (bind m (fun _ => k))
  (at level 61, right associativity).

(** [print(x)]: one line on standard output *)
Definition print (line : string) : M unit :=
  fun s => ([line ++ LF], inr (tt, s)).

Definition lift (A : Type) (e : exn) (o : option A) : M A :=
  match o with
  | Some a => ret a
  | None => raise A e
  end.

(** the node a reference names *)
Definition node_at (p : path) : M tree :=
  fun s => lift AssertionError (subtree (site s) p) s.

(** [capture[k]] *)
Definition getitem (capture : results) (k : string) : M cval :=
  lift KeyError (dict_get capture k).

(** using a capture as a node: a list has none of the node attributes *)
Definition as_node (v : cval) : M path :=
  match v with
  | CNode p => ret p
  | CList _ => raise path AttributeError
  end.

(** [v[0]]: the first element of a list capture; a node cannot be indexed *)
Definition index0 (v : cval) : M path :=
  match v with
  | CList (p :: _) => ret p
  | CList [] => raise path IndexError
  | CNode _ => raise path TypeError
  end.

(** [x.children[i]] as a reference *)
Definition child_ref (p : path) (i : nat) : M path :=
  n <- node_at p ;;
  match nth_error (children n) i with
  | Some _ => ret (p ++ [i])%list
  | None => raise path IndexError
  end.

(** [x.parent] as a reference, for a node below the matched node *)
Definition parent_ref (p : path) : M path :=
  match p with
  | [] => raise path AttributeError
  | _ :: _ => ret (removelast p)
  end.

(** [x.replace(new)]; the matched node itself can only be replaced when it
    has a parent. *)
Definition replace (p : path) (new : tree) : M unit :=
  fun s =>
    match p with
    | [] =>
        match ctx s with
        | [] => ([], inl AssertionError)
        | _ :: _ =>
            ([], inr (tt, {| flags := flags s; ctx := ctx s; site := new;
                             taken := Some (site s) |}))
        end
    | _ :: _ =>
        match replace_at (site s) p new with
        | Some t =>
            ([], inr (tt, {| flags := flags s; ctx := ctx s; site := t;
                             taken := taken s |}))
        | None => ([], inl AssertionError)
        end
    end.

(** [x.type = ty] *)
Definition set_type (p : path) (ty : symbol) : M unit :=
  n <- node_at p ;;
  fun s =>
    match replace_at (site s) p (retype n ty) with
    | Some t =>
        ([], inr (tt, {| flags := flags s; ctx := ctx s; site := t;
                         taken := taken s |}))
    | None => ([], inl AssertionError)
    end.

(** [x.get_suffix()]: the prefix of the next sibling, or the empty string *)
Definition get_suffix (p : path) : M string :=
  fun s =>
    match p with
    | [] =>
        match ctx s with
        | {| f_right := r :: _ |} :: _ => ([], inr (get_prefix r, s))
        | _ => ([], inr (EmptyString, s))
        end
    | _ :: _ =>
        match subtree (site s) (removelast p) with
        | Some parent =>
            match nth_error (children parent) (S (last p 0)) with
            | Some r => ([], inr (get_prefix r, s))
            | None => ([], inr (EmptyString, s))
            end
        | None => ([], inl AssertionError)
        end
    end.

(** ** The program: helpers and table *)

(** [kw(name)] and [kw(name, prefix=...)] *)
Definition kw (name : string) : tree := Leaf NAME name " " 0.

Definition OPERATOR_INVERSIONS : list (string * tree) :=
  [ ("==", Leaf NOTEQUAL "!=" " " 0);
    ("!=", Leaf EQEQUAL "==" " " 0);
    ("<", Leaf GREATEREQUAL ">=" " " 0);
    (">", Leaf LESSEQUAL "<=" " " 0);
    ("<=", Leaf GREATER ">" " " 0);
    (">=", Leaf LESS "<" " " 0);
    ("in", mkNode comp_op [kw "not"; kw "in"] (Some " "));
    ("not in", kw "in");
    ("is", mkNode comp_op [kw "is"; kw "not"] (Some " "));
    ("is not", kw "is") ].

Definition invert_operator (op : tree) : M tree :=
  t <- lift KeyError (assoc OPERATOR_INVERSIONS (strip (str op))) ;;
  ret (clone t).

(** ** The callbacks

    [node] is the matched node (the reference [[]]) and [capture] the
    captures of the match. *)

Definition simplify_not_operators (node : path) (capture : results) : M unit :=
  (* invert the operator *)
  c <- getitem capture "comparison" ;;
  cmp <- as_node c ;;
  op <- child_ref cmp 1 ;;
  op_node <- node_at op ;;
  inverted <- invert_operator op_node ;;
  replace op inverted ;;
  (* remove the 'not' *)
  r <- child_ref node 1 ;;
  rest <- node_at r ;;
  n <- node_at node ;;
  replace node (set_prefix (clone rest) (get_prefix n)).

Definition has_type (t : tree) (ty : TOKEN) : bool :=
  match t with
  | Leaf ty' _ _ _ => TOKEN_beq ty' ty
  | Node _ _ => false
  end.

Definition simplify_none_operand (node : path) (capture : results) : M unit :=
  v <- getitem capture "op" ;;
  op <- index0 v ;;
  op_node <- node_at op ;;
  print (str op_node) ;;
  if has_type op_node EQEQUAL
  then replace op (kw "is")
  else replace op (mkNode comp_op [kw "is"; kw "not"] None).

(** [capture.get('ifpart') or None], then [if ifpart: ifpart.type = ...]:
    a node is true, a list is true when it is not empty. *)
Definition retype_ifpart (capture : results) : M unit :=
  match dict_get capture "ifpart" with
  | None => ret tt
  | Some (CList []) => ret tt
  | Some (CList (_ :: _)) => raise unit AttributeError
  | Some (CNode p) => set_type p comp_if
  end.

Definition make_dict_comprehension (node : path) (capture : results) : M unit :=
  kv0 <- getitem capture "kv" ;;
  key0 <- getitem capture "k" ;;
  value0 <- getitem capture "v" ;;
  f <- getitem capture "forloop" ;;
  forloop <- index0 f ;;
  set_type forloop comp_for ;;
  retype_ifpart capture ;;
  key <- (k <- as_node key0 ;; node_at k) ;;
  value <- (v <- as_node value0 ;; node_at v) ;;
  loop <- node_at forloop ;;
  kv <- as_node kv0 ;;
  kvparent <- parent_ref kv ;;
  parent_node <- node_at kvparent ;;
  suffix <- get_suffix kvparent ;;
  n <- node_at node ;;
  replace node
    (mkNode atom
       [ Leaf LBRACE "{" "" 0;
         mkNode dictsetmaker
           [ clone key; Leaf COLON ":" "" 0; clone value; clone loop ]
           (Some (get_prefix parent_node));
         Leaf RBRACE "}" suffix 0 ]
       (Some (get_prefix n))).

Definition make_set_comprehension (node : path) (capture : results) : M unit :=
  arg0 <- getitem capture "arg" ;;
  f <- getitem capture "forloop" ;;
  forloop <- index0 f ;;
  set_type forloop comp_for ;;
  retype_ifpart capture ;;
  a <- as_node arg0 ;;
  arg <- node_at a ;;
  loop <- node_at forloop ;;
  argparent <- parent_ref a ;;
  parent_node <- node_at argparent ;;
  suffix <- get_suffix argparent ;;
  n <- node_at node ;;
  replace node
    (mkNode atom
       [ Leaf LBRACE "{" "" 0;
         mkNode dictsetmaker [ clone arg; clone loop ]
                (Some (get_prefix parent_node));
         Leaf RBRACE "}" suffix 0 ]
       (Some (get_prefix n))).

Definition node_type_is (t : tree) (ty : symbol) : bool :=
  match t with
  | Node ty' _ => symbol_beq ty' ty
  | Leaf _ _ _ _ => false
  end.

Definition option_nat_eqb (a b : option nat) : bool :=
  match a, b with
  | Some x, Some y => Nat.eqb x y
  | None, None => true
  | _, _ => false
  end.

(** the truth value of [capture.get(k)]: a node is true, a list is true
    when it is not empty, an absent key gives [None]. *)
Definition truthy (v : option cval) : bool :=
  match v with
  | Some (CNode _) => true
  | Some (CList (_ :: _)) => true
  | Some (CList []) => false
  | None => false
  end.

Definition remove_extra_parentheses (node0 : path) (capture : results) : M unit :=
  o <- getitem capture "outer" ;;
  inner0 <- getitem capture "inner" ;;
  node <- as_node o ;;
  l <- child_ref node 0 ;;
  l_node <- node_at l ;;
  r <- child_ref node 2 ;;
  r_node <- node_at r ;;
  if negb (option_nat_eqb (get_lineno l_node) (get_lineno r_node)) then
    (* don't touch parentheses on separate lines *)
    ret tt
  else
    inner <- match inner0 with
             | CList _ => index0 inner0
             | CNode p => ret p
             end ;;
    inner_node <- node_at inner ;;
    if truthy (dict_get capture "assignment_form")
       && node_type_is inner_node testlist_gexp
    then ret tt
    else
      n <- node_at node ;;
      replace node (set_prefix (clone inner_node) (get_prefix n)).

(** ** Running a callback at a match *)

Definition outcome : Type := list string * (exn + tree).

(** [fixer.match(node)] and, on a match, [callback(node, capture, ...)];
    the result is the tree that stands where the node stood. *)
Definition transform (pattern : Pattern)
           (callback : path -> results -> M unit)
           (fl : list (string * bool)) (c : list frame) (node : tree)
  : outcome :=
  match pattern_match pattern node with
  | None => ([], inr node)
  | Some capture =>
      match callback [] capture
                     {| flags := fl; ctx := c; site := node; taken := None |} with
      | (o, inl e) => (o, inl e)
      | (o, inr (_, s)) => (o, inr (site s))
      end
  end.

Definition rule : Type := Pattern * (path -> results -> M unit).

(** The rules in the order in which [main] registers them. *)
Definition rules : list rule :=
  [ (PATTERN_not, simplify_not_operators);
    (PATTERN_none, simplify_none_operand);
    (PATTERN_dict, make_dict_comprehension);
    (PATTERN_set, make_set_comprehension);
    (PATTERN_parens, remove_extra_parentheses) ].

(** ** The driver (RefactoringTool.refactor_tree and traverse_by)

    The query of [main] makes one fixer of each (pattern, callback) pair,
    in the order in which the pairs are registered; [execute] walks the
    tree of a file once, children before their parent, and tries the
    fixers at each node:

      for node in tree.post_order():
          for fixer in fixers[node.type]:
              results = fixer.match(node)
              if results:
                  new = fixer.transform(node, results)
                  if new is not None: node.replace(new); node = new

    [fixers[node.type]] are the fixers, in their order, whose pattern can
    match a node of that type; the others would not match.  The callbacks
    return nothing, so [new] is None and [node] stays the object the walk
    came to: the remaining fixers are tried on that object, as the
    callback left it.  When the callback has replaced it, it is out of the
    tree (it has no parent) and what happens to it changes the tree no
    more.  An exception of a callback ends the run. *)

(** the fixers [rs] at one node: [here] stands in the tree, [gone] is the
    node object once it has been taken out *)
Fixpoint try_fixers (rs : list rule) (fl : list (string * bool))
         (c : list frame) (here : tree) (gone : option tree) : outcome :=
  match rs with
  | [] => ([], inr here)
  | r :: rs' =>
      let node := match gone with Some old => old | None => here end in
      let around := match gone with Some _ => [] | None => c end in
      match pattern_match (fst r) node with
      | None => try_fixers rs' fl c here gone
      | Some capture =>
          match snd r [] capture
                    {| flags := fl; ctx := around; site := node;
                       taken := None |} with
          | (o, inl e) => (o, inl e)
          | (o, inr (_, s)) =>
              let rest :=
                match gone, taken s with
                | None, None => try_fixers rs' fl c (site s) None
                | None, Some old => try_fixers rs' fl c (site s) (Some old)
                | Some _, None => try_fixers rs' fl c here (Some (site s))
                | Some _, Some old => try_fixers rs' fl c here (Some old)
                end in
              ((o ++ fst rest)%list, snd rest)
          end
      end
  end.

(** the children [todo] of a node walked from left to right, [done] being
    the children already walked, as the walk left them *)
Definition each (walk : list tree -> list tree -> tree -> outcome)
  : list tree -> list tree -> list string -> list string * (exn + list tree) :=
  fix go (done todo : list tree) (out : list string) :=
    match todo with
    | [] => (out, inr done)
    | k :: todo' =>
        match walk done todo' k with
        | (o, inl e) => ((out ++ o)%list, inl e)
        | (o, inr k') => go (done ++ [k'])%list todo' (out ++ o)%list
        end
    end.

(** the walk in post-order: the children of a node, each with its parent
    and siblings around it, then the node itself *)
Fixpoint traverse_by (rs : list rule) (fl : list (string * bool))
         (c : list frame) (t : tree) {struct t} : outcome :=
  match t with
  | Leaf _ _ _ _ => try_fixers rs fl c t None
  | Node ty cs =>
      match
        each (fun done todo' k =>
                traverse_by rs fl
                  ({| f_type := ty; f_left := done; f_right := todo' |} :: c) k)
             [] cs []
      with
      | (o, inl e) => (o, inl e)
      | (o, inr cs') =>
          match try_fixers rs fl c (Node ty cs') None with
          | (o', res) => ((o ++ o')%list, res)
          end
      end
  end.

(** one run of the program over the tree of a file *)
Definition run (fl : list (string * bool)) (t : tree) : outcome :=
  traverse_by rules fl [] t.

(** ** Going down to a node of a tree

    [focus t p] is the node of [t] at path [p] together with what is around
    it, as a callback sees it. *)
Fixpoint focus_from (c : list frame) (t : tree) (p : path)
  : option (list frame * tree) :=
  match p with
  | [] => Some (c, t)
  | i :: p' =>
      match t with
      | Leaf _ _ _ _ => None
      | Node ty cs =>
          match nth_error cs i with
          | None => None
          | Some k =>
              focus_from ({| f_type := ty; f_left := firstn i cs;
                             f_right := skipn (S i) cs |} :: c) k p'
          end
      end
  end.

Definition focus (t : tree) (p : path) : option (list frame * tree) :=
  focus_from [] t p.

(** What a rule leaves at path [p] of [t] when it is tried there: the lines
    written to standard output and the text of the node that stands there
    afterwards, or the exception raised. *)
Definition text_after (r : rule) (t : tree) (p : path)
  : option (list string * (exn + string)) :=
  match focus t p with
  | None => None
  | Some (c, n) =>
      Some (match transform (fst r) (snd r) [] c n with
            | (o, inl e) => (o, inl e)
            | (o, inr n') => (o, inr (str n'))
            end)
  end.

(** The text of the file after a run, or the exception that ended it. *)
Definition text_of (o : outcome) : list string * (exn + string) :=
  match o with
  | (out, inl e) => (out, inl e)
  | (out, inr t) => (out, inr (str t))
  end.

(** ** Trees of sample inputs, as the parser builds them *)

(** the tree of [not a == b\n] *)
Definition src_not_eq : tree :=
  Node file_input
    [ Node simple_stmt
        [ Node not_test
            [ Leaf NAME "not" "" 1;
              Node comparison
                [ Leaf NAME "a" " " 1;
                  Leaf EQEQUAL "==" " " 1;
                  Leaf NAME "b" " " 1 ] ];
          Leaf NEWLINE LF "" 1 ];
      Leaf ENDMARKER "" "" 2 ].

(** the tree of [not a is not b\n] *)
Definition src_not_is_not : tree :=
  Node file_input
    [ Node simple_stmt
        [ Node not_test
            [ Leaf NAME "not" "" 1;
              Node comparison
                [ Leaf NAME "a" " " 1;
                  Node comp_op
                    [ Leaf NAME "is" " " 1;
                      Leaf NAME "not" " " 1 ];
                  Leaf NAME "b" " " 1 ] ];
          Leaf NEWLINE LF "" 1 ];
      Leaf ENDMARKER "" "" 2 ].

(** the tree of [not a == b == c\n] *)
Definition src_not_chain : tree :=
  Node file_input
    [ Node simple_stmt
        [ Node not_test
            [ Leaf NAME "not" "" 1;
              Node comparison
                [ Leaf NAME "a" " " 1;
                  Leaf EQEQUAL "==" " " 1;
                  Leaf NAME "b" " " 1;
                  Leaf EQEQUAL "==" " " 1;
                  Leaf NAME "c" " " 1 ] ];
          Leaf NEWLINE LF "" 1 ];
      Leaf ENDMARKER "" "" 2 ].

(** the tree of [not (a == b == c)\n] *)
Definition src_not_paren_chain : tree :=
  Node file_input
    [ Node simple_stmt
        [ Node not_test
            [ Leaf NAME "not" "" 1;
              Node atom
                [ Leaf LPAR "(" " " 1;
                  Node comparison
                    [ Leaf NAME "a" "" 1;
                      Leaf EQEQUAL "==" " " 1;
                      Leaf NAME "b" " " 1;
                      Leaf EQEQUAL "==" " " 1;
                      Leaf NAME "c" " " 1 ];
                  Leaf RPAR ")" "" 1 ] ];
          Leaf NEWLINE LF "" 1 ];
      Leaf ENDMARKER "" "" 2 ].

(** the tree of [not a is  not b\n] *)
Definition src_not_is_2not : tree :=
  Node file_input
    [ Node simple_stmt
        [ Node not_test
            [ Leaf NAME "not" "" 1;
              Node comparison
                [ Leaf NAME "a" " " 1;
                  Node comp_op
                    [ Leaf NAME "is" " " 1;
                      Leaf NAME "not" "  " 1 ];
                  Leaf NAME "b" " " 1 ] ];
          Leaf NEWLINE LF "" 1 ];
      Leaf ENDMARKER "" "" 2 ].

(** the tree of [x != None\n] *)
Definition src_ne_none : tree :=
  Node file_input
    [ Node simple_stmt
        [ Node comparison
            [ Leaf NAME "x" "" 1;
              Leaf NOTEQUAL "!=" " " 1;
              Leaf NAME "None" " " 1 ];
          Leaf NEWLINE LF "" 1 ];
      Leaf ENDMARKER "" "" 2 ].

(** the tree of [None == y\n] *)
Definition src_none_eq : tree :=
  Node file_input
    [ Node simple_stmt
        [ Node comparison
            [ Leaf NAME "None" "" 1;
              Leaf EQEQUAL "==" " " 1;
              Leaf NAME "y" " " 1 ];
          Leaf NEWLINE LF "" 1 ];
      Leaf ENDMARKER "" "" 2 ].

(** the tree of [dict([(k, v) for k, v in items])\n] *)
Definition src_dict : tree :=
  Node file_input
    [ Node simple_stmt
        [ Node power
            [ Leaf NAME "dict" "" 1;
              Node trailer
                [ Leaf LPAR "(" "" 1;
                  Node atom
                    [ Leaf LSQB "[" "" 1;
                      Node listmaker
                        [ Node atom
                            [ Leaf LPAR "(" "" 1;
                              Node testlist_gexp
                                [ Leaf NAME "k" "" 1;
                                  Leaf COMMA "," "" 1;
                                  Leaf NAME "v" " " 1 ];
                              Leaf RPAR ")" "" 1 ];
                          Node comp_for
                            [ Leaf NAME "for" " " 1;
                              Node exprlist
                                [ Leaf NAME "k" " " 1;
                                  Leaf COMMA "," "" 1;
                                  Leaf NAME "v" " " 1 ];
                              Leaf NAME "in" " " 1;
                              Leaf NAME "items" " " 1 ] ];
                      Leaf RSQB "]" "" 1 ];
                  Leaf RPAR ")" "" 1 ] ];
          Leaf NEWLINE LF "" 1 ];
      Leaf ENDMARKER "" "" 2 ].

(** the tree of [set([a for a in x])\n] *)
Definition src_set : tree :=
  Node file_input
    [ Node simple_stmt
        [ Node power
            [ Leaf NAME "set" "" 1;
              Node trailer
                [ Leaf LPAR "(" "" 1;
                  Node atom
                    [ Leaf LSQB "[" "" 1;
                      Node listmaker
                        [ Leaf NAME "a" "" 1;
                          Node comp_for
                            [ Leaf NAME "for" " " 1;
                              Leaf NAME "a" " " 1;
                              Leaf NAME "in" " " 1;
                              Leaf NAME "x" " " 1 ] ];
                      Leaf RSQB "]" "" 1 ];
                  Leaf RPAR ")" "" 1 ] ];
          Leaf NEWLINE LF "" 1 ];
      Leaf ENDMARKER "" "" 2 ].

(** the tree of [a = (b + c)\n] *)
Definition src_assign_sum : tree :=
  Node file_input
    [ Node simple_stmt
        [ Node expr_stmt
            [ Leaf NAME "a" "" 1;
              Leaf EQUAL "=" " " 1;
              Node atom
                [ Leaf LPAR "(" " " 1;
                  Node arith_expr
                    [ Leaf NAME "b" "" 1;
                      Leaf PLUS "+" " " 1;
                      Leaf NAME "c" " " 1 ];
                  Leaf RPAR ")" "" 1 ] ];
          Leaf NEWLINE LF "" 1 ];
      Leaf ENDMARKER "" "" 2 ].

(** the tree of [(\n  x\n)\n] *)
Definition src_two_lines : tree :=
  Node file_input
    [ Node simple_stmt
        [ Node atom
            [ Leaf LPAR "(" "" 1;
              Leaf NAME "x" (LF ++ "  ") 2;
              Leaf RPAR ")" LF 3 ];
          Leaf NEWLINE LF "" 3 ];
      Leaf ENDMARKER "" "" 4 ].

(** the tree of [a = (b, c)\n] *)
Definition src_assign_tuple : tree :=
  Node file_input
    [ Node simple_stmt
        [ Node expr_stmt
            [ Leaf NAME "a" "" 1;
              Leaf EQUAL "=" " " 1;
              Node atom
                [ Leaf LPAR "(" " " 1;
                  Node testlist_gexp
                    [ Leaf NAME "b" "" 1;
                      Leaf COMMA "," "" 1;
                      Leaf NAME "c" " " 1 ];
                  Leaf RPAR ")" "" 1 ] ];
          Leaf NEWLINE LF "" 1 ];
      Leaf ENDMARKER "" "" 2 ].

(** the tree of [a = (b for c in d)\n] *)
Definition src_assign_gen : tree :=
  Node file_input
    [ Node simple_stmt
        [ Node expr_stmt
            [ Leaf NAME "a" "" 1;
              Leaf EQUAL "=" " " 1;
              Node atom
                [ Leaf LPAR "(" " " 1;
                  Node testlist_gexp
                    [ Leaf NAME "b" "" 1;
                      Node comp_for
                        [ Leaf NAME "for" " " 1;
                          Leaf NAME "c" " " 1;
                          Leaf NAME "in" " " 1;
                          Leaf NAME "d" " " 1 ] ];
                  Leaf RPAR ")" "" 1 ] ];
          Leaf NEWLINE LF "" 1 ];
      Leaf ENDMARKER "" "" 2 ].

(** the tree of [return (x)\n] *)
Definition src_return : tree :=
  Node file_input
    [ Node simple_stmt
        [ Node return_stmt
            [ Leaf NAME "return" "" 1;
              Node atom
                [ Leaf LPAR "(" " " 1;
                  Leaf NAME "x" "" 1;
                  Leaf RPAR ")" "" 1 ] ];
          Leaf NEWLINE LF "" 1 ];
      Leaf ENDMARKER "" "" 2 ].

(** the tree of [x = (not\na == b)\n] *)
Definition src_broken_not : tree :=
  Node file_input
    [ Node simple_stmt
        [ Node expr_stmt
            [ Leaf NAME "x" "" 1;
              Leaf EQUAL "=" " " 1;
              Node atom
                [ Leaf LPAR "(" " " 1;
                  Node not_test
                    [ Leaf NAME "not" "" 1;
                      Node comparison
                        [ Leaf NAME "a" LF 2;
                          Leaf EQEQUAL "==" " " 2;
                          Leaf NAME "b" " " 2 ] ];
                  Leaf RPAR ")" "" 2 ] ];
          Leaf NEWLINE LF "" 2 ];
      Leaf ENDMARKER "" "" 3 ].

(** the tree of [x = (a != b)\n] *)
Definition src_broken_not_out : tree :=
  Node file_input
    [ Node simple_stmt
        [ Node expr_stmt
            [ Leaf NAME "x" "" 1;
              Leaf EQUAL "=" " " 1;
              Node atom
                [ Leaf LPAR "(" " " 1;
                  Node comparison
                    [ Leaf NAME "a" "" 1;
                      Leaf NOTEQUAL "!=" " " 1;
                      Leaf NAME "b" " " 1 ];
                  Leaf RPAR ")" "" 1 ] ];
          Leaf NEWLINE LF "" 1 ];
      Leaf ENDMARKER "" "" 2 ].

(** the tree of [(None) == x\n] *)
Definition src_paren_none : tree :=
  Node file_input
    [ Node simple_stmt
        [ Node comparison
            [ Node atom
                [ Leaf LPAR "(" "" 1;
                  Leaf NAME "None" "" 1;
                  Leaf RPAR ")" "" 1 ];
              Leaf EQEQUAL "==" " " 1;
              Leaf NAME "x" " " 1 ];
          Leaf NEWLINE LF "" 1 ];
      Leaf ENDMARKER "" "" 2 ].

(** the tree of [not a == None\n] *)
Definition src_not_none : tree :=
  Node file_input
    [ Node simple_stmt
        [ Node not_test
            [ Leaf NAME "not" "" 1;
              Node comparison
                [ Leaf NAME "a" " " 1;
                  Leaf EQEQUAL "==" " " 1;
                  Leaf NAME "None" " " 1 ] ];
          Leaf NEWLINE LF "" 1 ];
      Leaf ENDMARKER "" "" 2 ].

(** * Shapes of the nodes the patterns match *)

Definition is_lit (t : TOKEN) (v : string) (n : tree) : bool :=
  leaf_is (Some t) (Some v) n.

(** a parenthesised atom: [atom< "(" inner ")" >] with [inner] as told *)
Definition paren_atom (inner_ok : tree -> bool) (o : tree) : bool :=
  type_is (Some atom) o &&
  match children o with
  | [l; i; r] => is_lit LPAR "(" l && inner_ok i && is_lit RPAR ")" r
  | _ => false
  end.

(** [expr_stmt< any "=" atom< "(" any ")" > >] *)
Definition assignment_form (n : tree) : bool :=
  type_is (Some expr_stmt) n &&
  match children n with
  | [_; eq; o] => is_lit EQUAL "=" eq && paren_atom (fun _ => true) o
  | _ => false
  end.

(** a NAME, NUMBER or STRING leaf, a factor node, or a parenthesised atom *)
Definition inner_simple (i : tree) : bool :=
  leaf_is (Some NAME) None i || leaf_is (Some NUMBER) None i ||
  leaf_is (Some STRING) None i || type_is (Some factor) i ||
  paren_atom (fun _ => true) i.

Definition general_form (n : tree) : bool := paren_atom inner_simple n.

(** [testlist_gexp< any comp_for >] *)
Definition generator_clause (i : tree) : bool :=
  type_is (Some testlist_gexp) i &&
  match children i with
  | [_; f] => type_is (Some comp_for) f
  | _ => false
  end.

(** [any< "(" atom< "(" testlist_gexp< any comp_for > ")" > ")" >] *)
Definition nested_form (n : tree) : bool :=
  match children n with
  | [l; o; r] =>
      is_lit LPAR "(" l && paren_atom generator_clause o && is_lit RPAR ")" r
  | _ => false
  end.

Definition ALT_A : Pattern :=
  Eval vm_compute in
  match PATTERN_parens with
  | WildcardPattern (Some ([a] :: _)) _ _ _ => a
  | p => p
  end.

Definition ALT_B : Pattern :=
  Eval vm_compute in
  match PATTERN_parens with
  | WildcardPattern (Some (_ :: [a] :: _)) _ _ _ => a
  | p => p
  end.

Definition ALT_C : Pattern :=
  Eval vm_compute in
  match PATTERN_parens with
  | WildcardPattern (Some (_ :: _ :: [a] :: _)) _ _ _ => a
  | p => p
  end.


Definition is_eq_op (op : tree) : bool :=
  is_lit EQEQUAL "==" op || is_lit NOTEQUAL "!=" op.

(** [comparison< any ("==" | "!=") "None" >] *)
Definition none_right (n : tree) : bool :=
  type_is (Some comparison) n &&
  match children n with
  | [_; op; none] => is_eq_op op && is_lit NAME "None" none
  | _ => false
  end.

(** [comparison< "None" ("==" | "!=") any >] *)
Definition none_left (n : tree) : bool :=
  type_is (Some comparison) n &&
  match children n with
  | [none; op; _] => is_lit NAME "None" none && is_eq_op op
  | _ => false
  end.

(** at most [HUGE] children: what [any*] can stand for *)
Definition short (c : tree) : bool :=
  (N.of_nat (length (children c)) <=? HUGE)%N.

(** [not_test< "not" comparison< any* > >] *)
Definition not_form (n : tree) : bool :=
  type_is (Some not_test) n &&
  match children n with
  | [k; c] => is_lit NAME "not" k && (type_is (Some comparison) c && short c)
  | _ => false
  end.

(** the generator of [any] and of [any*] *)
Definition any_gen : generator := node_gen None None None.

Definition star_gen : generator := wild_gen (Some [[any_gen]]) 0 HUGE None.


(** the second unit of the pattern of rule 1: [comparison=comparison< any* >] *)
Definition CMP : Pattern :=
  Eval vm_compute in
  match PATTERN_not with
  | NodePattern _ (Some [WildcardPattern (Some [[_; c]]) _ _ _]) _ => c
  | p => p
  end.

(** a computation that writes nothing to standard output *)
Definition silent (A : Type) (m : M A) : Prop := forall s, fst (m s) = [].

(** ** Further notions used in the statements *)

(** a string of blanks only *)
Definition blank (p : string) : bool := string_forallb isspace p.

(** the keys of [OPERATOR_INVERSIONS] *)
Definition inversion_keys : list string := map fst OPERATOR_INVERSIONS.

(** the state [s] with another [flags] dict *)
Definition with_flags (fl : list (string * bool)) (s : state) : state :=
  {| flags := fl; ctx := ctx s; site := site s; taken := taken s |}.

(** a computation that never reads [flags]: run with another [flags]
    dict, it writes the same lines and ends the same way, the dict
    carried along *)
Definition flag_blind (A : Type) (m : M A) : Prop :=
  forall fl s,
    m (with_flags fl s) =
    match m s with
    | (o, inl e) => (o, inl e)
    | (o, inr (a, s')) => (o, inr (a, with_flags fl s'))
    end.

(** the pattern of the unit [forloop=( comp_for< any* "in" any
    [ ifpart=comp_if< any* > ] > )] of both patterns of rule 3 *)
Definition FORLOOP : Pattern :=
  Eval vm_compute in
  match compile_unit forloop_src with
  | Some p => p
  | None => WildcardPattern None 1 0 None
  end.

(** the generators of ["in"], of [ifpart=comp_if< any* >] and of the
    optional group around it *)
Definition in_gen : generator := leaf_gen (Some NAME) (Some "in") None.

Definition ifpart_gen : generator :=
  node_gen (Some comp_if) (Some (true, [star_gen])) (Some "ifpart").

Definition opt_if_gen : generator := wild_gen (Some [[ifpart_gen]]) 0 1 None.

(** the captures a [comp_for] node can bring: none, or the [comp_if] node *)
Definition small (r : results) : Prop :=
  r = [] \/ exists q, r = [("ifpart", CNode q)].

(** ** A tree on which a run changes nothing *)

(** the pattern [p] matches the node [n] *)
Definition matches (p : Pattern) (n : tree) : bool :=
  match pattern_match p n with
  | Some _ => true
  | None => false
  end.

(** the parentheses of the atom [o] were read on different lines *)
Definition lines_differ (o : tree) : bool :=
  match children o with
  | [l; _; r] => negb (option_nat_eqb (get_lineno l) (get_lineno r))
  | _ => false
  end.

(** rule 4 leaves [n] as it is: no form of its pattern matches, or the
    callback keeps the parentheses, as they were read on different lines
    or, in an assignment, stand around a [testlist_gexp] *)
Definition parens_kept (n : tree) : bool :=
  if assignment_form n then
    match children n with
    | [_; _; o] =>
        lines_differ o ||
        match children o with
        | [_; i; _] => node_type_is i testlist_gexp
        | _ => false
        end
    | _ => false
    end
  else if general_form n then lines_differ n
  else if nested_form n then
    match children n with
    | [_; o; _] => lines_differ o
    | _ => false
    end
  else true.

(** no rule does anything at [n]: the patterns of rules 1 to 3 do not
    match it and rule 4 leaves it as it is *)
Definition at_rest (n : tree) : bool :=
  negb (not_form n) && negb (none_right n) && negb (none_left n) &&
  negb (matches PATTERN_dict n) && negb (matches PATTERN_set n) &&
  parens_kept n.

Fixpoint all_at_rest (t : tree) : bool :=
  at_rest t &&
  match t with
  | Leaf _ _ _ _ => true
  | Node _ cs => forallb all_at_rest cs
  end.

(** the operator of a comparison as the parser builds it: one token, or
    a [comp_op] node of two tokens ([not in], [is not]); and a token
    that reads [==] or [!=] is of the type of these operators *)
Definition parsed_operator (op : tree) : bool :=
  match op with
  | Leaf _ _ _ _ => true
  | Node comp_op [Leaf _ _ _ _; Leaf _ _ _ _] => true
  | Node _ _ => false
  end &&
  (if (strip (str op) =? "==") || (strip (str op) =? "!=")
   then is_eq_op op
   else true).

(** every comparison in [t] has such an operator *)
Fixpoint parsed_operators (t : tree) : bool :=
  match t with
  | Leaf _ _ _ _ => true
  | Node ty cs =>
      match ty, cs with
      | comparison, _ :: op :: _ => parsed_operator op
      | _, _ => true
      end &&
      forallb parsed_operators cs
  end.

(** * Proofs *)

Lemma leaf_is_lit t v n :
  leaf_is (Some t) (Some v) n = true -> exists p ln, n = Leaf t v p ln.
Proof.
  destruct n as [t' v' p ln|]; cbn; [|discriminate].
  intro H. apply andb_prop in H. destruct H as [H1 H2].
  apply internal_TOKEN_dec_bl in H1. apply String.eqb_eq in H2. subst. eauto.
Qed.

Lemma leaf_is_tok t n :
  leaf_is (Some t) None n = true -> exists v p ln, n = Leaf t v p ln.
Proof.
  destruct n as [t' v' p ln|]; cbn; [|discriminate].
  intro H. apply andb_prop in H. destruct H as [H1 H2].
  apply internal_TOKEN_dec_bl in H1. subst. eauto.
Qed.

Lemma type_is_sym s n : type_is (Some s) n = true -> exists cs, n = Node s cs.
Proof.
  destruct n as [|s' cs]; cbn; [discriminate|].
  intro H. apply internal_symbol_dec_bl in H. subst. eauto.
Qed.

#[local] Arguments leaf_is : simpl never.
#[local] Arguments type_is : simpl never.

(** One step of evaluating a matcher on a node that is only partly known:
    decide a test on a leaf or a node, or look at one more child. *)
Ltac gstep :=
  match goal with
  | |- context [type_is None ?n] => change (type_is None n) with true
  | |- context [leaf_is ?t ?c (Node ?s ?x)] =>
      change (leaf_is t c (Node s x)) with false
  | |- context [leaf_is ?t ?c (Leaf ?a ?b ?p ?l)] =>
      let r := eval cbv in (leaf_is t c (Leaf a b p l)) in
      change (leaf_is t c (Leaf a b p l)) with r
  | |- context [type_is (Some ?s) (Leaf ?a ?b ?p ?l)] =>
      change (type_is (Some s) (Leaf a b p l)) with false
  | |- context [type_is (Some ?s) (Node ?s' ?x)] =>
      let r := eval cbv in (symbol_beq s s') in
      change (type_is (Some s) (Node s' x)) with r
  | |- context [leaf_is (Some ?t) (Some ?c) ?n] =>
      is_var n;
      let E := fresh "E" in
      destruct (leaf_is (Some t) (Some c) n) eqn:E;
      [apply leaf_is_lit in E; destruct E as (? & ? & ->) | clear E]
  | |- context [leaf_is (Some ?t) None ?n] =>
      is_var n;
      let E := fresh "E" in
      destruct (leaf_is (Some t) None n) eqn:E;
      [apply leaf_is_tok in E; destruct E as (? & ? & ? & ->) | clear E]
  | |- context [type_is (Some ?s) ?n] =>
      is_var n;
      let E := fresh "E" in
      destruct (type_is (Some s) n) eqn:E;
      [apply type_is_sym in E; destruct E as (? & ->) | clear E]
  | |- context [leaf_gen _ _ _ (number _ _ ?x)] => is_var x; destruct x
  | |- context [node_gen _ _ _ (number _ _ ?x)] => is_var x; destruct x
  | |- context [wild_gen _ _ _ _ (number _ _ ?x)] => is_var x; destruct x
  | |- context [skipn _ (number _ _ ?x)] => is_var x; destruct x
  | |- context [match length (number _ _ ?x) with _ => _ end] =>
      is_var x; destruct x
  | |- context [kids _ ?x] => is_var x; destruct x
  | |- context [children ?x] => is_var x; destruct x
  | |- context [match ?x with [] => _ | _ :: _ => _ end] => is_var x; destruct x
  end.

Ltac evaluate := repeat (cbn; gstep); cbn; try reflexivity.

Lemma alt_A n :
  generate_matches ALT_A [([], n)] =
  if assignment_form n
  then [(1, [("inner", CNode [2; 1]); ("outer", CNode [2]);
             ("assignment_form", CNode [])])]
  else [].
Proof.
  unfold ALT_A, assignment_form, paren_atom, is_lit.
  evaluate.
Qed.

Lemma alt_B n :
  generate_matches ALT_B [([], n)] =
  if general_form n
  then [(1, [("inner", CList [[1]]); ("outer", CNode [])])]
  else [].
Proof.
  unfold ALT_B, general_form, inner_simple, paren_atom, is_lit.
  evaluate.
Qed.

Lemma alt_C n :
  generate_matches ALT_C [([], n)] =
  if nested_form n
  then [(1, [("inner", CNode [1; 1]); ("outer", CNode [1])])]
  else [].
Proof.
  unfold ALT_C, nested_form, generator_clause, paren_atom, is_lit.
  evaluate.
Qed.

Lemma parens_split :
  PATTERN_parens = WildcardPattern (Some [[ALT_A]; [ALT_B]; [ALT_C]]) 1 1 None.
Proof. reflexivity. Qed.

Lemma parens_nf n :
  pattern_match PATTERN_parens n =
  if assignment_form n then
    Some [("node", CNode []); ("inner", CNode [2; 1]); ("outer", CNode [2]);
          ("assignment_form", CNode [])]
  else if general_form n then
    Some [("node", CNode []); ("inner", CList [[1]]); ("outer", CNode [])]
  else if nested_form n then
    Some [("node", CNode []); ("inner", CNode [1; 1]); ("outer", CNode [1])]
  else None.
Proof.
  rewrite parens_split. unfold pattern_match, match_seq.
  change (generate_matches (WildcardPattern (Some [[ALT_A]; [ALT_B]; [ALT_C]]) 1 1 None))
    with (wild_gen (Some [[generate_matches ALT_A]; [generate_matches ALT_B];
                          [generate_matches ALT_C]]) 1 1 None).
  generalize (alt_A n) (alt_B n) (alt_C n).
  generalize (generate_matches ALT_A) (generate_matches ALT_B) (generate_matches ALT_C).
  intros gA gB gC HA HB HC.
  unfold wild_gen. cbn. rewrite HA, HB, HC.
  destruct (assignment_form n); [reflexivity|].
  destruct (general_form n); [reflexivity|].
  destruct (nested_form n); reflexivity.
Qed.

(** ** The pattern of rule 2 *)

Lemma none_nf n :
  pattern_match PATTERN_none n =
  if none_right n then
    Some [("node", CNode []); ("a", CNode [0]); ("op", CList [[1]]);
          ("none", CNode [2]); ("comparison", CNode [])]
  else if none_left n then
    Some [("node", CNode []); ("none", CNode [0]); ("op", CList [[1]]);
          ("a", CNode [2]); ("comparison", CNode [])]
  else None.
Proof.
  unfold pattern_match, match_one, PATTERN_none, none_right, none_left, is_eq_op, is_lit.
  evaluate.
Qed.

(** ** The pattern of rule 1 *)

Lemma leb_0 (x : N) : (0 <=? x)%N = true.
Proof. apply N.leb_le, N.le_0_l. Qed.

Lemma star_results fuel ns count cr :
  In cr (recursive_matches fuel [[any_gen]] 0 HUGE ns count) -> snd cr = [].
Proof.
  revert ns count cr. induction fuel as [|fuel IH]; intros ns count cr.
  - cbn [recursive_matches]. rewrite leb_0.
    destruct (N.of_nat count <? HUGE)%N; cbn; intros [<-|[]]; reflexivity.
  - cbn [recursive_matches]. rewrite leb_0.
    destruct (N.of_nat count <? HUGE)%N; cbn; [|intros [<-|[]]; reflexivity].
    intros [<-|H]; [reflexivity|].
    rewrite ?app_nil_r in H.
    destruct ns as [|[pos n] ns]; cbn in H; [destruct H|].
    change (type_is None n) with true in H. cbn in H.
    rewrite ?app_nil_r in H. apply in_map_iff in H.
    destruct H as (cr1 & <- & H1). cbn. apply IH in H1. rewrite H1. reflexivity.
Qed.

Lemma star_full fuel ns count :
  length ns <= fuel ->
  (N.of_nat (count + length ns) <= HUGE)%N ->
  In (length ns, []) (recursive_matches fuel [[any_gen]] 0 HUGE ns count).
Proof.
  revert ns count. induction fuel as [|fuel IH]; intros ns count Hf Hc.
  - destruct ns; [|cbn in Hf; lia]. cbn [recursive_matches]. rewrite leb_0.
    left. reflexivity.
  - destruct ns as [|[pos n] ns].
    + cbn [recursive_matches]. rewrite leb_0. left. reflexivity.
    + cbn [recursive_matches]. rewrite leb_0.
      assert (Hlt : (N.of_nat count <? HUGE)%N = true).
      { apply N.ltb_lt. cbn [length] in Hc. lia. }
      rewrite Hlt. cbn. change (type_is None n) with true. cbn.
      right. rewrite ?app_nil_r.
      apply in_map_iff. exists (length ns, []). split; [reflexivity|].
      apply IH; [cbn in Hf; lia|]. cbn [length] in Hc. lia.
Qed.

Lemma flat_map_unit (A : Type) (l : list A) : flat_map (fun x => [x]) l = l.
Proof. induction l as [|x l IH]; cbn; [|rewrite IH]; reflexivity. Qed.

Lemma map_pair_eta (A B : Type) (l : list (A * B)) :
  map (fun cr => (fst cr, snd cr)) l = l.
Proof. induction l as [|[a b] l IH]; cbn; [|rewrite IH]; reflexivity. Qed.

Lemma star_gen_eq ns :
  seq_matches [star_gen] ns = recursive_matches (S (length ns)) [[any_gen]] 0 HUGE ns 0.
Proof.
  cbn [seq_matches]. rewrite flat_map_unit. unfold star_gen, wild_gen.
  cbn [bind_name]. apply map_pair_eta.
Qed.

Lemma star_submatch_inv ns r : submatch true [star_gen] ns = Some r -> r = [].
Proof.
  unfold submatch. rewrite star_gen_eq.
  destruct (find _ _) as [cr|] eqn:F; [|discriminate].
  intros [= <-]. apply find_some in F. destruct F as [F _].
  eapply star_results; eassumption.
Qed.

Lemma star_submatch_full ns :
  (N.of_nat (length ns) <= HUGE)%N -> submatch true [star_gen] ns = Some [].
Proof.
  intro H. unfold submatch. rewrite star_gen_eq.
  destruct (find _ _) as [cr|] eqn:F.
  - apply find_some in F. destruct F as [F _].
    apply star_results in F. rewrite F. reflexivity.
  - assert (Hin : In (length ns, @nil (string * cval))
                     (recursive_matches (S (length ns)) [[any_gen]] 0 HUGE ns 0))
      by (apply star_full; [lia | cbn; exact H]).
    pose proof (find_none _ _ F _ Hin) as Hf. cbn in Hf.
    rewrite Nat.eqb_refl in Hf. discriminate.
Qed.

Lemma not_split :
  PATTERN_not =
  NodePattern (Some not_test)
    (Some [WildcardPattern
             (Some [[LeafPattern (Some NAME) (Some "not") None; CMP]]) 1 1 None])
    None.
Proof. reflexivity. Qed.

Lemma cmp_gen pos c rest :
  generate_matches CMP ((pos, c) :: rest) =
  if type_is (Some comparison) c then
    match submatch true [star_gen] (kids pos c) with
    | Some r => [(1, dict_set "comparison" (CNode pos) r)]
    | None => []
    end
  else [].
Proof. reflexivity. Qed.

Lemma cmp_cases pos c rest :
  generate_matches CMP ((pos, c) :: rest) = [] \/
  ((exists cs, c = Node comparison cs) /\
   generate_matches CMP ((pos, c) :: rest) = [(1, [("comparison", CNode pos)])]).
Proof.
  rewrite cmp_gen. destruct (type_is (Some comparison) c) eqn:E; [|left; reflexivity].
  apply type_is_sym in E.
  destruct (submatch true [star_gen] (kids pos c)) as [r|] eqn:S; [|left; reflexivity].
  apply star_submatch_inv in S. subst r. right. split; [exact E|reflexivity].
Qed.

Lemma cmp_full pos cs rest :
  (N.of_nat (length cs) <= HUGE)%N ->
  generate_matches CMP ((pos, Node comparison cs) :: rest) =
  [(1, [("comparison", CNode pos)])].
Proof.
  intro H. rewrite cmp_gen. cbn [type_is]. 
  change (type_is (Some comparison) (Node comparison cs)) with true.
  rewrite star_submatch_full; [reflexivity|].
  unfold kids. cbn [children].
  assert (L : forall p i l, length (number p i l) = length l).
  { intros p i l. revert i. induction l as [|x l IH]; intro i; cbn; [|rewrite IH]; reflexivity. }
  rewrite L. exact H.
Qed.

Lemma length_number pos i cs : length (number pos i cs) = length cs.
Proof.
  revert i. induction cs as [|c cs IH]; intro i; cbn; [|rewrite IH]; reflexivity.
Qed.

Lemma star_bound fuel ns count cr :
  (N.of_nat count <= HUGE)%N ->
  In cr (recursive_matches fuel [[any_gen]] 0 HUGE ns count) ->
  (N.of_nat (count + fst cr) <= HUGE)%N.
Proof.
  revert ns count cr. induction fuel as [|fuel IH]; intros ns count cr Hc.
  - cbn [recursive_matches]. rewrite leb_0.
    destruct (N.of_nat count <? HUGE)%N; cbn; intros [<-|[]]; cbn;
      rewrite Nat.add_0_r; exact Hc.
  - cbn [recursive_matches]. rewrite leb_0.
    destruct (N.of_nat count <? HUGE)%N eqn:Hlt; cbn;
      [|intros [<-|[]]; cbn; rewrite Nat.add_0_r; exact Hc].
    intros [<-|H]; [cbn; rewrite Nat.add_0_r; exact Hc|].
    rewrite ?app_nil_r in H.
    destruct ns as [|[pos n] ns]; cbn in H; [destruct H|].
    change (type_is None n) with true in H. cbn in H.
    rewrite ?app_nil_r in H. apply in_map_iff in H.
    destruct H as (cr1 & <- & H1). cbn [fst].
    apply IH in H1; [|apply N.ltb_lt in Hlt; lia].
    replace (count + S (fst cr1)) with (S count + fst cr1) by lia. exact H1.
Qed.

Lemma star_submatch_nf ns :
  submatch true [star_gen] ns =
  if (N.of_nat (length ns) <=? HUGE)%N then Some [] else None.
Proof.
  destruct (N.of_nat (length ns) <=? HUGE)%N eqn:E.
  - apply star_submatch_full. apply N.leb_le. exact E.
  - unfold submatch. rewrite star_gen_eq.
    destruct (find _ _) as [cr|] eqn:F; [|reflexivity].
    apply find_some in F. destruct F as [F1 F2].
    apply star_bound in F1; [|cbn; lia].
    apply Nat.eqb_eq in F2. cbn [Nat.add] in F1. rewrite F2 in F1.
    apply N.leb_gt in E. lia.
Qed.

Lemma cmp_nf pos c rest :
  generate_matches CMP ((pos, c) :: rest) =
  if type_is (Some comparison) c && short c
  then [(1, [("comparison", CNode pos)])]
  else [].
Proof.
  rewrite cmp_gen. destruct (type_is (Some comparison) c); [|reflexivity].
  rewrite star_submatch_nf. unfold kids, short. rewrite length_number.
  cbn [andb]. destruct (_ <=? _)%N; reflexivity.
Qed.

Lemma cmp_nil : generate_matches CMP [] = [].
Proof. reflexivity. Qed.

#[local] Arguments short : simpl never.

Lemma not_nf n :
  pattern_match PATTERN_not n =
  if not_form n
  then Some [("node", CNode []); ("comparison", CNode [1])]
  else None.
Proof.
  rewrite not_split. unfold pattern_match, match_one, not_form, is_lit.
  change (generate_matches
            (NodePattern (Some not_test)
               (Some [WildcardPattern
                        (Some [[LeafPattern (Some NAME) (Some "not") None; CMP]])
                        1 1 None]) None))
    with (node_gen (Some not_test)
            (Some (true,
                   [wild_gen (Some [[leaf_gen (Some NAME) (Some "not") None;
                                     generate_matches CMP]]) 1 1 None])) None).
  generalize cmp_nf cmp_nil. generalize (generate_matches CMP).
  intros g Hg Hg0.
  repeat (cbn;
          first [ rewrite Hg | rewrite Hg0 | gstep
                | match goal with
                  | |- context [short ?c] => destruct (short c)
                  end ]);
    cbn; reflexivity.
Qed.

Lemma none_rewrite fl c n caps :
  pattern_match PATTERN_none n = Some caps ->
  exists a op b,
    n = Node comparison [a; op; b] /\
    ((exists p ln, op = Leaf EQEQUAL "==" p ln /\
        transform PATTERN_none simplify_none_operand fl c n =
          ([str op ++ LF], inr (Node comparison [a; kw "is"; b]))) \/
     (exists p ln, op = Leaf NOTEQUAL "!=" p ln /\
        transform PATTERN_none simplify_none_operand fl c n =
          ([str op ++ LF],
           inr (Node comparison [a; Node comp_op [kw "is"; kw "not"]; b])))).
Proof.
  unfold transform. rewrite none_nf.
  unfold none_right, none_left, is_eq_op, is_lit.
  repeat (cbn; gstep); cbn; intro H; try discriminate H.
  all: do 3 eexists; split; [reflexivity|].
  all: first [ left; do 2 eexists; split; reflexivity
             | right; do 2 eexists; split; reflexivity ].
Qed.

Lemma tree_induction (P : tree -> Prop) :
  (forall ty v p ln, P (Leaf ty v p ln)) ->
  (forall ty cs, Forall P cs -> P (Node ty cs)) ->
  forall t, P t.
Proof.
  intros HL HN. fix IH 1. intros [ty v p ln|ty cs]; [apply HL|].
  apply HN. induction cs as [|c cs IHcs]; constructor; [apply IH | exact IHcs].
Qed.

Lemma clone_id t : clone t = t.
Proof.
  induction t as [ty v p ln|ty cs IH] using tree_induction; cbn; [reflexivity|].
  f_equal. induction IH as [|c cs Hc _ IHcs]; cbn; [reflexivity|].
  rewrite Hc, IHcs. reflexivity.
Qed.

Lemma map_clone_id cs : map clone cs = cs.
Proof.
  induction cs as [|c cs IH]; cbn; [|rewrite clone_id, IH]; reflexivity.
Qed.

Lemma invert_operator_ok op inv s :
  assoc OPERATOR_INVERSIONS (strip (str op)) = Some inv ->
  invert_operator op s = ([], inr (inv, s)).
Proof.
  intro H. unfold invert_operator, bind, lift. rewrite H. cbn.
  rewrite clone_id. reflexivity.
Qed.

Lemma invert_operator_err op s :
  assoc OPERATOR_INVERSIONS (strip (str op)) = None ->
  invert_operator op s = ([], inl KeyError).
Proof.
  intro H. unfold invert_operator, bind, lift. rewrite H. reflexivity.
Qed.

#[local] Arguments invert_operator : simpl never.

Lemma not_rewrite fl c n caps op inv :
  pattern_match PATTERN_not n = Some caps ->
  subtree n [1; 1] = Some op ->
  assoc OPERATOR_INVERSIONS (strip (str op)) = Some inv ->
  c <> [] ->
  exists p ln a rest,
    n = Node not_test [Leaf NAME "not" p ln; Node comparison (a :: op :: rest)] /\
    transform PATTERN_not simplify_not_operators fl c n =
      ([], inr (Node comparison (set_prefix a p :: inv :: rest))).
Proof.
  intros Hm Hop Hinv Hc. unfold transform. rewrite not_nf in Hm |- *.
  revert Hm Hop. unfold not_form, is_lit.
  repeat (cbn; first [ gstep | match goal with
                               | |- context [short ?c] => destruct (short c)
                               end ]);
    cbn; intros Hm Hop; try discriminate Hm; try discriminate Hop.
  injection Hop as ->.
  do 4 eexists. split; [reflexivity|].
  unfold bind. rewrite (invert_operator_ok _ _ Hinv).
  destruct c as [|f c']; [contradiction|]. cbn.
  rewrite !clone_id, map_clone_id. reflexivity.
Qed.

Lemma parens_lines fl c n caps o l r :
  pattern_match PATTERN_parens n = Some caps ->
  dict_get caps "outer" = Some (CNode o) ->
  subtree n (o ++ [0])%list = Some l ->
  subtree n (o ++ [2])%list = Some r ->
  get_lineno l <> get_lineno r ->
  transform PATTERN_parens remove_extra_parentheses fl c n = ([], inr n).
Proof.
  unfold transform. rewrite parens_nf.
  unfold assignment_form, general_form, nested_form, inner_simple,
    generator_clause, paren_atom, is_lit.
  repeat (cbn; gstep); cbn; intros Hm; try discriminate Hm.
  all: injection Hm as <-; cbn; intros [= <-]; cbn; intros [= <-] [= <-]; cbn.
  all: intro Hl.
  all: match goal with
       | |- context [(?a =? ?b)%nat] =>
           destruct (Nat.eqb_spec a b) as [->|]; [contradiction Hl; reflexivity|]
       end.
  all: reflexivity.
Qed.

Lemma parens_display fl c n caps v i cs :
  pattern_match PATTERN_parens n = Some caps ->
  dict_get caps "assignment_form" = Some v ->
  dict_get caps "inner" = Some (CNode i) ->
  subtree n i = Some (Node testlist_gexp cs) ->
  transform PATTERN_parens remove_extra_parentheses fl c n = ([], inr n).
Proof.
  unfold transform. rewrite parens_nf.
  unfold assignment_form, general_form, nested_form, inner_simple,
    generator_clause, paren_atom, is_lit.
  repeat (cbn; gstep); cbn; intros Hm; try discriminate Hm.
  all: injection Hm as <-; cbn; intros Hv; try discriminate Hv.
  all: intros [= <-]; cbn; intros [= ->]; cbn.
  all: match goal with
       | |- context [(?a =? ?b)%nat] => destruct (a =? b)%nat
       end.
  all: reflexivity.
Qed.

(** ** The table *)

Lemma assoc_In (A : Type) (l : list (string * A)) k v :
  assoc l k = Some v -> In (k, v) l.
Proof.
  induction l as [|[k' v'] l IH]; cbn; [discriminate|].
  destruct (String.eqb_spec k k') as [->|_].
  - intros [= ->]. left. reflexivity.
  - intro H. right. apply IH, H.
Qed.

Lemma inversions_back k v :
  In (k, v) OPERATOR_INVERSIONS ->
  exists v', assoc OPERATOR_INVERSIONS (strip (str v)) = Some v' /\
             strip (str v') = k.
Proof.
  cbn. intros H.
  repeat (destruct H as [[= <- <-]|H]; [eexists; split; reflexivity|]).
  destruct H.
Qed.

Lemma invert_twice op inv1 s :
  invert_operator op s = ([], inr (inv1, s)) ->
  exists inv2, invert_operator inv1 s = ([], inr (inv2, s)) /\
               strip (str inv2) = strip (str op).
Proof.
  unfold invert_operator at 1. unfold bind, lift.
  destruct (assoc OPERATOR_INVERSIONS (strip (str op))) as [t|] eqn:E;
    cbn; [|discriminate].
  rewrite clone_id. intros [= <-].
  apply assoc_In, inversions_back in E. destruct E as (v' & E1 & E2).
  exists v'. split; [apply invert_operator_ok, E1 | exact E2].
Qed.

(** ** Standard output *)

Lemma silent_ret (A : Type) (a : A) : silent (ret a).
Proof. intro s. reflexivity. Qed.

Lemma silent_raise (A : Type) (e : exn) : silent (raise A e).
Proof. intro s. reflexivity. Qed.

Lemma silent_bind (A B : Type) (m : M A) (f : A -> M B) :
  silent m -> (forall a, silent (f a)) -> silent (bind m f).
Proof.
  intros Hm Hf s. unfold bind. specialize (Hm s).
  destruct (m s) as [o1 [e|[a s1]]]; cbn in *; [exact Hm|].
  specialize (Hf a s1). destruct (f a s1) as [o2 r]. cbn in *.
  subst. reflexivity.
Qed.

Lemma silent_lift (A : Type) (e : exn) (o : option A) : silent (lift e o).
Proof. destruct o; intro s; reflexivity. Qed.

Lemma silent_node_at p : silent (node_at p).
Proof. intro s. unfold node_at. apply silent_lift. Qed.

Lemma silent_getitem d k : silent (getitem d k).
Proof. apply silent_lift. Qed.

Lemma silent_as_node v : silent (as_node v).
Proof. destruct v; intro s; reflexivity. Qed.

Lemma silent_index0 v : silent (index0 v).
Proof. destruct v as [|[|? ?]]; intro s; reflexivity. Qed.

Lemma silent_parent_ref p : silent (parent_ref p).
Proof. destruct p; intro s; reflexivity. Qed.

Lemma silent_replace p t : silent (replace p t).
Proof.
  intro s. unfold replace. destruct p; [destruct (ctx s)|destruct (replace_at _ _ _)];
    reflexivity.
Qed.

Lemma silent_get_suffix p : silent (get_suffix p).
Proof.
  intro s. unfold get_suffix. destruct p.
  - destruct (ctx s) as [|[ty l [|r rs]] c]; reflexivity.
  - destruct (subtree _ _); [|reflexivity]. destruct (nth_error _ _); reflexivity.
Qed.

Create HintDb silent.
#[local] Hint Resolve silent_ret silent_raise silent_lift silent_node_at
  silent_getitem silent_as_node silent_index0 silent_parent_ref silent_replace
  silent_get_suffix : silent.

Ltac quiet :=
  repeat first
    [ progress auto with silent
    | apply silent_bind; [|intro]
    | match goal with
      | |- silent (match ?x with _ => _ end) => destruct x
      | |- silent (if ?b then _ else _) => destruct b
      end ].

Lemma silent_child_ref p i : silent (child_ref p i).
Proof. unfold child_ref. quiet. Qed.

Lemma silent_set_type p ty : silent (set_type p ty).
Proof.
  unfold set_type. apply silent_bind; [auto with silent|]. intros n s.
  destruct (replace_at _ _ _); reflexivity.
Qed.

Lemma silent_invert_operator op : silent (invert_operator op).
Proof. unfold invert_operator. quiet. Qed.

#[local] Hint Resolve silent_child_ref silent_set_type silent_invert_operator
  : silent.

Lemma silent_retype_ifpart caps : silent (retype_ifpart caps).
Proof. unfold retype_ifpart. quiet. Qed.

#[local] Hint Resolve silent_retype_ifpart : silent.

Lemma silent_simplify_not_operators node caps :
  silent (simplify_not_operators node caps).
Proof. unfold simplify_not_operators. quiet. Qed.

Lemma silent_make_dict_comprehension node caps :
  silent (make_dict_comprehension node caps).
Proof. unfold make_dict_comprehension. quiet. Qed.

Lemma silent_make_set_comprehension node caps :
  silent (make_set_comprehension node caps).
Proof. unfold make_set_comprehension. quiet. Qed.

Lemma silent_remove_extra_parentheses node caps :
  silent (remove_extra_parentheses node caps).
Proof. unfold remove_extra_parentheses. quiet. Qed.

Lemma not_form_shape n :
  not_form n = true <->
  exists p ln cs,
    n = Node not_test [Leaf NAME "not" p ln; Node comparison cs] /\
    (N.of_nat (length cs) <= HUGE)%N.
Proof.
  split.
  - unfold not_form, is_lit.
    repeat (cbn; gstep); cbn; intro H; try discriminate H.
    do 3 eexists. split; [reflexivity|]. apply N.leb_le. exact H.
  - intros (p & ln & cs & -> & H). apply N.leb_le in H. exact H.
Qed.

(** What rule 1 does at a node of the shape its pattern asks for. *)
Lemma not_outcome fl c p ln cs :
  (N.of_nat (length cs) <= HUGE)%N ->
  transform PATTERN_not simplify_not_operators fl c
    (Node not_test [Leaf NAME "not" p ln; Node comparison cs]) =
  match cs with
  | a :: op :: rest =>
      match assoc OPERATOR_INVERSIONS (strip (str op)) with
      | None => ([], inl KeyError)
      | Some inv =>
          match c with
          | [] => ([], inl AssertionError)
          | _ :: _ => ([], inr (Node comparison (set_prefix a p :: inv :: rest)))
          end
      end
  | _ => ([], inl IndexError)
  end.
Proof.
  intro H. unfold transform. rewrite not_nf.
  replace (not_form _) with true
    by (symmetry; apply not_form_shape; eauto 6).
  destruct cs as [|a [|op rest]]; [reflexivity..|].
  destruct (assoc OPERATOR_INVERSIONS (strip (str op))) as [inv|] eqn:E;
    cbn; unfold bind.
  - rewrite (invert_operator_ok _ _ E). destruct c; cbn; [reflexivity|].
    rewrite !clone_id, map_clone_id. reflexivity.
  - rewrite (invert_operator_err _ _ E). reflexivity.
Qed.

Lemma not_no_match fl c n :
  not_form n = false ->
  transform PATTERN_not simplify_not_operators fl c n = ([], inr n).
Proof. intro H. unfold transform. rewrite not_nf, H. reflexivity. Qed.

(** * The claims *)

(** C1 (the code does otherwise): the pattern of rule 1 asks for a
    comparison with any number of children, so the chained comparison of
    [not a == b == c] is matched and rewritten to [a != b == c], which is
    not its negation.  The example [not (a == b == c)] of the specification
    is left alone only because the parentheses put an atom, not a
    comparison, under [not]. *)
Theorem C1_chained_comparison_is_rewritten :
  (exists c p ln cs,
     focus src_not_chain [0; 0] =
       Some (c, Node not_test [Leaf NAME "not" p ln; Node comparison cs]) /\
     length cs = 5 /\
     pattern_match PATTERN_not
       (Node not_test [Leaf NAME "not" p ln; Node comparison cs]) =
       Some [("node", CNode []); ("comparison", CNode [1])]) /\
  text_after (PATTERN_not, simplify_not_operators) src_not_chain [0; 0] =
    Some ([], inr "a != b == c") /\
  text_after (PATTERN_not, simplify_not_operators) src_not_paren_chain [0; 0] =
    Some ([], inr "not (a == b == c)").
Proof.
  split; [|split; vm_compute; reflexivity].
  do 4 eexists. split; [lazy; reflexivity|].
  split; [reflexivity | vm_compute; reflexivity].
Qed.

(** C2 (the code does otherwise at some matches): the callback looks the
    operator up by its text with the blanks around it stripped.  At a match
    whose operator has another text than the ten keys of the table, such as
    [is  not] written with two blanks in [not a is  not b], the lookup
    raises KeyError and nothing is rewritten (second part, and the last
    three for that input).  At every match whose
    stripped operator text is a key, the callback does what the claim
    says: it puts the table's entry in the place of the operator, drops
    [not] and gives the comparison the prefix the [not_test] node had ([c],
    what is around the matched node, is not empty: a [not_test] of a parsed
    file has a parent).  The table maps == to !=, != to ==, < to >=, > to
    <=, <= to >, >= to <, in to not in, not in to in, is to is not, is not
    to is; [not a == b] becomes [a != b] and [not a is not b] becomes
    [a is b]. *)
Theorem C2_negation_inversion :
  (forall fl c n caps op inv,
      pattern_match PATTERN_not n = Some caps ->
      subtree n [1; 1] = Some op ->
      assoc OPERATOR_INVERSIONS (strip (str op)) = Some inv ->
      c <> [] ->
      exists p ln a rest,
        n = Node not_test
              [Leaf NAME "not" p ln; Node comparison (a :: op :: rest)] /\
        transform PATTERN_not simplify_not_operators fl c n =
          ([], inr (Node comparison (set_prefix a p :: inv :: rest)))) /\
  (forall fl c n caps op,
      pattern_match PATTERN_not n = Some caps ->
      subtree n [1; 1] = Some op ->
      assoc OPERATOR_INVERSIONS (strip (str op)) = None ->
      transform PATTERN_not simplify_not_operators fl c n =
        ([], inl KeyError)) /\
  map (fun kv => (fst kv, strip (str (snd kv)))) OPERATOR_INVERSIONS =
    [ ("==", "!="); ("!=", "=="); ("<", ">="); (">", "<="); ("<=", ">");
      (">=", "<"); ("in", "not in"); ("not in", "in"); ("is", "is not");
      ("is not", "is") ] /\
  text_after (PATTERN_not, simplify_not_operators) src_not_eq [0; 0] =
    Some ([], inr "a != b") /\
  text_after (PATTERN_not, simplify_not_operators) src_not_is_not [0; 0] =
    Some ([], inr "a is b") /\
  str src_not_is_2not = "not a is  not b" ++ LF /\
  (exists n op,
     subtree src_not_is_2not [0; 0] = Some n /\
     pattern_match PATTERN_not n =
       Some [("node", CNode []); ("comparison", CNode [1])] /\
     subtree n [1; 1] = Some op /\
     strip (str op) = "is  not" /\
     assoc OPERATOR_INVERSIONS (strip (str op)) = None) /\
  text_after (PATTERN_not, simplify_not_operators) src_not_is_2not [0; 0] =
    Some ([], inl KeyError).
Proof.
  split; [|split; [|repeat split; try (vm_compute; reflexivity)]].
  - intros fl c n caps op inv. apply not_rewrite.
  - intros fl c n caps op Hm Hop Hnone. rewrite not_nf in Hm.
    destruct (not_form n) eqn:F; [|discriminate Hm].
    apply not_form_shape in F. destruct F as (p & ln & cs & -> & Hs).
    rewrite (@not_outcome fl c p ln cs Hs).
    destruct cs as [|a [|o rest]]; try discriminate Hop.
    cbn in Hop. injection Hop as ->. rewrite Hnone. reflexivity.
  - do 2 eexists. split; [lazy; reflexivity|].
    split; [vm_compute; reflexivity|]. split; [lazy; reflexivity|].
    split; vm_compute; reflexivity.
Qed.

Lemma C2_negation_inversion_witness :
  exists p ln a rest,
    Node not_test
      [Leaf NAME "not" "" 1;
       Node comparison
         [Leaf NAME "a" " " 1; Leaf EQEQUAL "==" " " 1; Leaf NAME "b" " " 1]] =
    Node not_test
      [Leaf NAME "not" p ln;
       Node comparison (a :: Leaf EQEQUAL "==" " " 1 :: rest)] /\
    transform PATTERN_not simplify_not_operators []
      [{| f_type := simple_stmt; f_left := []; f_right := [] |}]
      (Node not_test
         [Leaf NAME "not" "" 1;
          Node comparison
            [Leaf NAME "a" " " 1; Leaf EQEQUAL "==" " " 1; Leaf NAME "b" " " 1]]) =
    ([], inr (Node comparison
                (set_prefix a p :: Leaf NOTEQUAL "!=" " " 0 :: rest))).
Proof.
  apply (proj1 C2_negation_inversion [] _ _
               [("node", CNode []); ("comparison", CNode [1])]).
  - vm_compute. reflexivity.
  - reflexivity.
  - vm_compute. reflexivity.
  - discriminate.
Defined.

(** C3: at every match of rule 2 the node is a comparison of two operands
    around [==] or [!=]; the callback puts [is] in the place of [==] and
    the node [is not] of two tokens in the place of [!=], and leaves both
    operands where they were.  [x != None] becomes [x is not None] and
    [None == y] becomes [None is y]. *)
Theorem C3_none_identity :
  (forall fl c n caps,
      pattern_match PATTERN_none n = Some caps ->
      exists a op b,
        n = Node comparison [a; op; b] /\
        ((exists p ln, op = Leaf EQEQUAL "==" p ln /\
            snd (transform PATTERN_none simplify_none_operand fl c n) =
              inr (Node comparison [a; kw "is"; b])) \/
         (exists p ln, op = Leaf NOTEQUAL "!=" p ln /\
            snd (transform PATTERN_none simplify_none_operand fl c n) =
              inr (Node comparison
                     [a; Node comp_op [kw "is"; kw "not"]; b])))) /\
  str (Node comp_op [kw "is"; kw "not"]) = " is not" /\
  text_after (PATTERN_none, simplify_none_operand) src_ne_none [0; 0] =
    Some ([" !=" ++ LF], inr "x is not None") /\
  text_after (PATTERN_none, simplify_none_operand) src_none_eq [0; 0] =
    Some ([" ==" ++ LF], inr "None is y").
Proof.
  split; [|split; [|split]; vm_compute; reflexivity].
  intros fl c n caps H.
  destruct (none_rewrite fl c _ H) as (a & op & b & -> & [Hr|Hr]);
    destruct Hr as (p & ln & -> & Hr); exists a; eexists; exists b;
    (split; [reflexivity|]); [left|right]; do 2 eexists;
    (split; [reflexivity|]); rewrite Hr; reflexivity.
Qed.

Lemma C3_none_identity_witness :
  exists a op b,
    Node comparison
      [Leaf NAME "x" "" 1; Leaf NOTEQUAL "!=" " " 1; Leaf NAME "None" " " 1] =
    Node comparison [a; op; b] /\
    ((exists p ln, op = Leaf EQEQUAL "==" p ln /\
        snd (transform PATTERN_none simplify_none_operand [] []
               (Node comparison
                  [Leaf NAME "x" "" 1; Leaf NOTEQUAL "!=" " " 1;
                   Leaf NAME "None" " " 1])) =
          inr (Node comparison [a; kw "is"; b])) \/
     (exists p ln, op = Leaf NOTEQUAL "!=" p ln /\
        snd (transform PATTERN_none simplify_none_operand [] []
               (Node comparison
                  [Leaf NAME "x" "" 1; Leaf NOTEQUAL "!=" " " 1;
                   Leaf NAME "None" " " 1])) =
          inr (Node comparison [a; Node comp_op [kw "is"; kw "not"]; b]))).
Proof.
  apply (proj1 C3_none_identity [] []
               (Node comparison
                  [Leaf NAME "x" "" 1; Leaf NOTEQUAL "!=" " " 1;
                   Leaf NAME "None" " " 1])
               [("node", CNode []); ("a", CNode [0]); ("op", CList [[1]]);
                ("none", CNode [2]); ("comparison", CNode [])]).
  vm_compute. reflexivity.
Defined.

(** C4 (the code does otherwise): in both patterns of rule 3 the group
    [forloop=( comp_for< ... > )] has one alternative of one unit, and the
    pattern compiler then puts the name on the node pattern itself, so the
    capture is the [comp_for] node and not a list.  [capture['forloop'][0]]
    raises TypeError: at [dict([(k, v) for k, v in items])] and at
    [set([a for a in x])] the callbacks raise and nothing is rewritten.
    With the capture given as a list of that node, the callbacks would
    build the texts the documentation gives. *)
Theorem C4_comprehension_callbacks_raise :
  (exists ty content,
     compile_unit forloop_src = Some (NodePattern ty content (Some "forloop"))) /\
  text_after (PATTERN_dict, make_dict_comprehension) src_dict [0; 0] =
    Some ([], inl TypeError) /\
  text_after (PATTERN_set, make_set_comprehension) src_set [0; 0] =
    Some ([], inl TypeError) /\
  (exists c n caps f,
     focus src_dict [0; 0] = Some (c, n) /\
     pattern_match PATTERN_dict n = Some caps /\
     dict_get caps "forloop" = Some (CNode f) /\
     option_map (fun r => str (site (snd r)))
       (match make_dict_comprehension []
                (dict_set "forloop" (CList [f]) caps)
                {| flags := []; ctx := c; site := n; taken := None |} with
        | (_, inr r) => Some r
        | (_, inl _) => None
        end) = Some "{k: v for k, v in items}") /\
  (exists c n caps f,
     focus src_set [0; 0] = Some (c, n) /\
     pattern_match PATTERN_set n = Some caps /\
     dict_get caps "forloop" = Some (CNode f) /\
     option_map (fun r => str (site (snd r)))
       (match make_set_comprehension []
                (dict_set "forloop" (CList [f]) caps)
                {| flags := []; ctx := c; site := n; taken := None |} with
        | (_, inr r) => Some r
        | (_, inl _) => None
        end) = Some "{a for a in x}").
Proof.
  split; [do 2 eexists; lazy; reflexivity|].
  split; [vm_compute; reflexivity|]. split; [vm_compute; reflexivity|].
  split; do 4 eexists; (split; [lazy; reflexivity|]);
    (split; [lazy; reflexivity|]); split; lazy; reflexivity.
Qed.

Lemma parens_no_match fl c n :
  assignment_form n || general_form n || nested_form n = false ->
  transform PATTERN_parens remove_extra_parentheses fl c n = ([], inr n).
Proof.
  intro H. unfold transform. rewrite parens_nf.
  apply orb_false_elim in H. destruct H as [H ->].
  apply orb_false_elim in H. destruct H as [-> ->]. reflexivity.
Qed.

(** C5, as the claim has it, fails: in [a = (b + c)] the parentheses are
    around a sum, the rule matches and takes them away. *)
Lemma C5_sum_is_unwrapped :
  exists n inner,
    subtree src_assign_sum [0; 0] = Some n /\
    subtree n [2; 1] = Some inner /\
    node_type_is inner arith_expr = true /\
    pattern_match PATTERN_parens n =
      Some [("node", CNode []); ("inner", CNode [2; 1]); ("outer", CNode [2]);
            ("assignment_form", CNode [])] /\
    text_after (PATTERN_parens, remove_extra_parentheses) src_assign_sum [0; 0] =
      Some ([], inr "a = b + c").
Proof.
  do 2 eexists. split; [lazy; reflexivity|]. split; [lazy; reflexivity|].
  split; [reflexivity|]. split; vm_compute; reflexivity.
Qed.

(** C5, amended: rule 4 matches a node in exactly three forms, tried in
    this order: an assignment whose right-hand side is a parenthesised
    atom, whatever is inside the parentheses ([assignment_form]); a
    parenthesised atom around a NAME, a NUMBER, a STRING, a factor or
    another parenthesised atom ([general_form]); a node of three children
    that are a parenthesis, a parenthesised atom around a generator clause,
    and a parenthesis ([nested_form]).  A node of none of these forms is
    not matched and stays as it is. *)
Theorem C5_parens_pattern_forms (n : tree) :
  pattern_match PATTERN_parens n =
    (if assignment_form n then
       Some [("node", CNode []); ("inner", CNode [2; 1]); ("outer", CNode [2]);
             ("assignment_form", CNode [])]
     else if general_form n then
       Some [("node", CNode []); ("inner", CList [[1]]); ("outer", CNode [])]
     else if nested_form n then
       Some [("node", CNode []); ("inner", CNode [1; 1]); ("outer", CNode [1])]
     else None) /\
  (assignment_form n || general_form n || nested_form n = false ->
   forall fl c,
     transform PATTERN_parens remove_extra_parentheses fl c n = ([], inr n)).
Proof.
  split; [apply parens_nf|]. intros H fl c. apply parens_no_match, H.
Qed.

Lemma C5_parens_pattern_forms_witness :
  transform PATTERN_parens remove_extra_parentheses [] []
    (Node arith_expr
       [Leaf NAME "b" "" 1; Leaf PLUS "+" " " 1; Leaf NAME "c" " " 1]) =
  ([], inr (Node arith_expr
              [Leaf NAME "b" "" 1; Leaf PLUS "+" " " 1; Leaf NAME "c" " " 1])).
Proof.
  apply (proj2 (C5_parens_pattern_forms
                  (Node arith_expr
                     [Leaf NAME "b" "" 1; Leaf PLUS "+" " " 1;
                      Leaf NAME "c" " " 1]))).
  vm_compute. reflexivity.
Defined.

(** C6: at every match of rule 4 whose two parentheses (the first and the
    third child of the captured [outer] atom) start on different lines,
    the callback leaves the tree as it is; so it does at the atom of the
    two-line input that has the parentheses on lines 1 and 3. *)
Theorem C6_parens_on_different_lines :
  (forall fl c n caps o l r,
      pattern_match PATTERN_parens n = Some caps ->
      dict_get caps "outer" = Some (CNode o) ->
      subtree n (o ++ [0])%list = Some l ->
      subtree n (o ++ [2])%list = Some r ->
      get_lineno l <> get_lineno r ->
      transform PATTERN_parens remove_extra_parentheses fl c n = ([], inr n)) /\
  (pattern_match PATTERN_parens
     (Node atom [Leaf LPAR "(" "" 1; Leaf NAME "x" (LF ++ "  ") 2;
                 Leaf RPAR ")" LF 3]) <> None) /\
  text_after (PATTERN_parens, remove_extra_parentheses) src_two_lines [0; 0] =
    Some ([], inr ("(" ++ LF ++ "  x" ++ LF ++ ")")).
Proof.
  split; [|split; [vm_compute; discriminate | vm_compute; reflexivity]].
  intros fl c n caps o l r. apply parens_lines.
Qed.

Lemma C6_parens_on_different_lines_witness :
  transform PATTERN_parens remove_extra_parentheses [] []
    (Node atom [Leaf LPAR "(" "" 1; Leaf NAME "x" (LF ++ "  ") 2;
                Leaf RPAR ")" LF 3]) =
  ([], inr (Node atom [Leaf LPAR "(" "" 1; Leaf NAME "x" (LF ++ "  ") 2;
                       Leaf RPAR ")" LF 3])).
Proof.
  apply (proj1 C6_parens_on_different_lines [] [] _
               [("node", CNode []); ("inner", CList [[1]]); ("outer", CNode [])]
               [] (Leaf LPAR "(" "" 1) (Leaf RPAR ")" LF 3)).
  - vm_compute. reflexivity.
  - reflexivity.
  - reflexivity.
  - reflexivity.
  - cbn. discriminate.
Defined.

(** C7: at every match of rule 4 in assignment position (the capture
    [assignment_form] is there) whose captured [inner] node is a
    [testlist_gexp], the node of a tuple display and of a generator
    display, the callback leaves the tree as it is; so it does for
    [a = (b, c)] and for [a = (b for c in d)]. *)
Theorem C7_display_in_assignment :
  (forall fl c n caps v i cs,
      pattern_match PATTERN_parens n = Some caps ->
      dict_get caps "assignment_form" = Some v ->
      dict_get caps "inner" = Some (CNode i) ->
      subtree n i = Some (Node testlist_gexp cs) ->
      transform PATTERN_parens remove_extra_parentheses fl c n = ([], inr n)) /\
  text_after (PATTERN_parens, remove_extra_parentheses) src_assign_tuple [0; 0] =
    Some ([], inr "a = (b, c)") /\
  text_after (PATTERN_parens, remove_extra_parentheses) src_assign_gen [0; 0] =
    Some ([], inr "a = (b for c in d)").
Proof.
  split; [|split; vm_compute; reflexivity].
  intros fl c n caps v i cs. apply parens_display.
Qed.

Lemma C7_display_in_assignment_witness :
  transform PATTERN_parens remove_extra_parentheses [] []
    (Node expr_stmt
       [Leaf NAME "a" "" 1; Leaf EQUAL "=" " " 1;
        Node atom
          [Leaf LPAR "(" " " 1;
           Node testlist_gexp
             [Leaf NAME "b" "" 1; Leaf COMMA "," "" 1; Leaf NAME "c" " " 1];
           Leaf RPAR ")" "" 1]]) =
  ([], inr (Node expr_stmt
       [Leaf NAME "a" "" 1; Leaf EQUAL "=" " " 1;
        Node atom
          [Leaf LPAR "(" " " 1;
           Node testlist_gexp
             [Leaf NAME "b" "" 1; Leaf COMMA "," "" 1; Leaf NAME "c" " " 1];
           Leaf RPAR ")" "" 1]])).
Proof.
  apply (proj1 C7_display_in_assignment [] [] _
               [("node", CNode []); ("inner", CNode [2; 1]);
                ("outer", CNode [2]); ("assignment_form", CNode [])]
               (CNode []) [2; 1]
               [Leaf NAME "b" "" 1; Leaf COMMA "," "" 1; Leaf NAME "c" " " 1]).
  - vm_compute. reflexivity.
  - reflexivity.
  - reflexivity.
  - reflexivity.
Defined.

(** C9: when [invert_operator] has an entry for an operator, it has one for
    the operator it returns too, and the text of that second result,
    blanks around it stripped, is the stripped text of the operator one
    started with. *)
Theorem C9_invert_twice (op inv1 : tree) (s : state) :
  invert_operator op s = ([], inr (inv1, s)) ->
  exists inv2,
    invert_operator inv1 s = ([], inr (inv2, s)) /\
    strip (str inv2) = strip (str op).
Proof. apply invert_twice. Qed.

Lemma C9_invert_twice_witness :
  exists inv2,
    invert_operator (mkNode comp_op [kw "is"; kw "not"] (Some " "))
                    {| flags := []; ctx := []; site := kw "x"; taken := None |} =
      ([], inr (inv2, {| flags := []; ctx := []; site := kw "x"; taken := None |})) /\
    strip (str inv2) = strip (str (Leaf NAME "is" " " 1)).
Proof.
  apply (@C9_invert_twice (Leaf NAME "is" " " 1)).
  vm_compute. reflexivity.
Defined.

(** C10: at every match of rule 2 the callback writes one line to standard
    output, the text of the operator it matched, whatever [flags] holds;
    the callbacks of the other rules write nothing, whatever they are
    called with. *)
Theorem C10_only_rule_2_prints :
  (forall fl c n caps,
      pattern_match PATTERN_none n = Some caps ->
      exists op,
        subtree n [1] = Some op /\
        fst (transform PATTERN_none simplify_none_operand fl c n) =
          [str op ++ LF]) /\
  (forall node caps,
      silent (simplify_not_operators node caps) /\
      silent (make_dict_comprehension node caps) /\
      silent (make_set_comprehension node caps) /\
      silent (remove_extra_parentheses node caps)).
Proof.
  split.
  - intros fl c n caps H.
    destruct (none_rewrite fl c _ H) as (a & op & b & -> & [Hr|Hr]);
      destruct Hr as (p & ln & -> & Hr); rewrite Hr; eexists;
      split; reflexivity.
  - intros node caps. repeat split.
    + apply silent_simplify_not_operators.
    + apply silent_make_dict_comprehension.
    + apply silent_make_set_comprehension.
    + apply silent_remove_extra_parentheses.
Qed.

Lemma C10_only_rule_2_prints_witness :
  exists op,
    subtree (Node comparison
               [Leaf NAME "x" "" 1; Leaf NOTEQUAL "!=" " " 1;
                Leaf NAME "None" " " 1]) [1] = Some op /\
    fst (transform PATTERN_none simplify_none_operand [("debug", false)] []
           (Node comparison
              [Leaf NAME "x" "" 1; Leaf NOTEQUAL "!=" " " 1;
               Leaf NAME "None" " " 1])) = [str op ++ LF].
Proof.
  apply (proj1 C10_only_rule_2_prints [("debug", false)] [] _
               [("node", CNode []); ("a", CNode [0]); ("op", CList [[1]]);
                ("none", CNode [2]); ("comparison", CNode [])]).
  vm_compute. reflexivity.
Defined.

(** * Further properties of the program *)

(** ** Rule 1 *)

(** X1: the pattern of rule 1 matches exactly the [not_test] nodes of two
    children, the name [not] and a comparison, however many children the
    comparison has; the only captures are the node and the comparison. *)
Theorem not_pattern_matches (n : tree) :
  (pattern_match PATTERN_not n =
     if not_form n
     then Some [("node", CNode []); ("comparison", CNode [1])]
     else None) /\
  (not_form n = true <->
   exists p ln cs,
     n = Node not_test [Leaf NAME "not" p ln; Node comparison cs] /\
     (N.of_nat (length cs) <= HUGE)%N).
Proof. split; [apply not_nf | apply not_form_shape]. Qed.

(** X2: what rule 1 does at a node its pattern matches, errors included:
    IndexError when the comparison has fewer than two children, KeyError
    when the stripped text of the second child is no key of the table,
    AssertionError when the matched node has no parent, and otherwise the
    comparison, with the operator inverted and the prefix of the node, in
    the place of the node. *)
Theorem not_rule_outcome fl c p ln cs :
  (N.of_nat (length cs) <= HUGE)%N ->
  transform PATTERN_not simplify_not_operators fl c
    (Node not_test [Leaf NAME "not" p ln; Node comparison cs]) =
  match cs with
  | a :: op :: rest =>
      match assoc OPERATOR_INVERSIONS (strip (str op)) with
      | None => ([], inl KeyError)
      | Some inv =>
          match c with
          | [] => ([], inl AssertionError)
          | _ :: _ => ([], inr (Node comparison (set_prefix a p :: inv :: rest)))
          end
      end
  | _ => ([], inl IndexError)
  end.
Proof. apply not_outcome. Qed.

Lemma not_rule_outcome_witness :
  transform PATTERN_not simplify_not_operators [] []
    (Node not_test
       [Leaf NAME "not" "" 1;
        Node comparison
          [Leaf NAME "a" " " 1;
           Node comp_op [Leaf NAME "is" " " 1; Leaf NAME "not" "  " 1];
           Leaf NAME "b" " " 1]]) =
  ([], inl KeyError).
Proof.
  apply (@not_rule_outcome [] [] "" 1
           [Leaf NAME "a" " " 1;
            Node comp_op [Leaf NAME "is" " " 1; Leaf NAME "not" "  " 1];
            Leaf NAME "b" " " 1]).
  vm_compute. discriminate.
Defined.

(** ** [invert_operator] *)

Lemma lstrip_blank p s : blank p = true -> lstrip (p ++ s) = lstrip s.
Proof.
  unfold blank. induction p as [|ch p IH]; cbn; [reflexivity|].
  intro H. apply andb_prop in H. destruct H as [H1 H2].
  rewrite H1. apply IH, H2.
Qed.

Lemma strip_blank p s : blank p = true -> strip (p ++ s) = strip s.
Proof. intro H. unfold strip. rewrite lstrip_blank by exact H. reflexivity. Qed.

Lemma append_assoc' (a b c : string) : (a ++ b) ++ c = a ++ (b ++ c).
Proof. induction a as [|ch a IH]; cbn; [|rewrite IH]; reflexivity. Qed.

(** the text of a tree with another prefix: either the tree has a first
    leaf, whose prefix starts the text, or it has none and no prefix can
    be set *)
Lemma str_set_prefix t p :
  str (set_prefix t p) = p ++ str (set_prefix t "") \/
  (forall q, set_prefix t q = t).
Proof.
  induction t as [ty v pre ln|ty cs IH] using tree_induction.
  - left. reflexivity.
  - destruct cs as [|c cs]; [right; reflexivity|].
    inversion IH as [|? ? Hc _]; subst. destruct Hc as [Hc|Hc].
    + left. cbn. cbn in Hc. rewrite Hc.
      rewrite append_assoc'. reflexivity.
    + right. intro q. cbn. rewrite Hc. reflexivity.
Qed.

(** X3: [invert_operator] looks at the text of the operator with the
    blanks around it stripped, so a prefix of blanks on the operator makes
    no difference. *)
Theorem invert_operator_ignores_blank_prefix (op : tree) (p : string) (s : state) :
  blank p = true ->
  invert_operator (set_prefix op p) s = invert_operator (set_prefix op "") s.
Proof.
  intro H. unfold invert_operator.
  destruct (str_set_prefix op p) as [E|E].
  - rewrite E, strip_blank by exact H. reflexivity.
  - rewrite !E. reflexivity.
Qed.

Lemma invert_operator_ignores_blank_prefix_witness :
  invert_operator (set_prefix (Leaf EQEQUAL "==" "" 1) "   ")
                  {| flags := []; ctx := []; site := kw "x"; taken := None |} =
  invert_operator (set_prefix (Leaf EQEQUAL "==" "" 1) "")
                  {| flags := []; ctx := []; site := kw "x"; taken := None |}.
Proof.
  apply (@invert_operator_ignores_blank_prefix (Leaf EQEQUAL "==" "" 1) "   ").
  reflexivity.
Defined.

Lemma rstrip_keep s c :
  isspace c = false -> rstrip (s ++ String c "") = s ++ String c "".
Proof.
  intro H. induction s as [|ch s IH]; cbn; [rewrite H; reflexivity|].
  rewrite IH. destruct s; reflexivity.
Qed.

(** one step of comparing a string with a key of the table *)
Ltac keystep :=
  match goal with
  | |- context [Ascii.eqb ?a ?b] =>
      first [ is_var a; destruct (Ascii.eqb a b)
            | let r := eval vm_compute in (Ascii.eqb a b) in
              change (Ascii.eqb a b) with r ]
  | |- context [(?p ++ "not") =? _] => is_var p; destruct p
  | |- context [(?p ++ "in") =? _] => is_var p; destruct p
  end.

(** X4: of the operators of two words [invert_operator] knows [is not]
    and [not in] written with exactly one space between the words: with
    anything else there (two blanks, a tab, a line continuation) the
    lookup fails and it raises KeyError. *)
Theorem invert_operator_two_words (p1 p2 : string) (l1 l2 : nat) (s : state) :
  blank p1 = true ->
  invert_operator
    (Node comp_op [Leaf NAME "is" p1 l1; Leaf NAME "not" p2 l2]) s =
    (if p2 =? " " then ([], inr (kw "is", s)) else ([], inl KeyError)) /\
  invert_operator
    (Node comp_op [Leaf NAME "not" p1 l1; Leaf NAME "in" p2 l2]) s =
    (if p2 =? " " then ([], inr (kw "in", s)) else ([], inl KeyError)).
Proof.
  intro H. unfold invert_operator. cbn [str].
  rewrite !append_assoc'.
  rewrite (@strip_blank p1 ("is" ++ p2 ++ "not" ++ "") H).
  rewrite (@strip_blank p1 ("not" ++ p2 ++ "in" ++ "") H).
  replace (strip ("is" ++ p2 ++ "not" ++ ""))
    with ("is" ++ p2 ++ "not").
  2:{ change (strip ("is" ++ p2 ++ "not" ++ ""))
        with (rstrip ("is" ++ p2 ++ "no" ++ "t")).
      rewrite <- !append_assoc'. rewrite rstrip_keep by reflexivity.
      rewrite !append_assoc'. reflexivity. }
  replace (strip ("not" ++ p2 ++ "in" ++ ""))
    with ("not" ++ p2 ++ "in").
  2:{ change (strip ("not" ++ p2 ++ "in" ++ ""))
        with (rstrip ("not" ++ p2 ++ "i" ++ "n")).
      rewrite <- !append_assoc'. rewrite rstrip_keep by reflexivity.
      rewrite !append_assoc'. reflexivity. }
  unfold OPERATOR_INVERSIONS, assoc, bind, lift.
  split; repeat (cbn -[Ascii.eqb]; keystep); reflexivity.
Qed.

Lemma invert_operator_two_words_witness :
  invert_operator
    (Node comp_op [Leaf NAME "is" " " 1; Leaf NAME "not" "  " 1])
    {| flags := []; ctx := []; site := kw "x"; taken := None |} =
  ([], inl KeyError).
Proof.
  apply (proj1 (@invert_operator_two_words " " "  " 1 1
                  {| flags := []; ctx := []; site := kw "x"; taken := None |}
                  eq_refl)).
Defined.

(** X5: whatever it is given, the operator [invert_operator] returns comes
    with a prefix of one blank, and is a leaf or a [comp_op] node of two
    names. *)
Theorem invert_operator_result_prefix (op inv : tree) (s s' : state) (o : list string) :
  invert_operator op s = (o, inr (inv, s')) ->
  get_prefix inv = " " /\ str inv = " " ++ strip (str inv) /\
  In (strip (str inv)) inversion_keys.
Proof.
  unfold invert_operator, bind, lift.
  destruct (assoc OPERATOR_INVERSIONS (strip (str op))) as [t|] eqn:E;
    cbn; [|discriminate].
  rewrite clone_id. intros [= _ <- _].
  apply assoc_In in E. cbn in E.
  repeat (destruct E as [[= _ <-]|E];
          [split; [reflexivity|split; [reflexivity|vm_compute; tauto]]|]).
  destruct E.
Qed.

Lemma invert_operator_result_prefix_witness :
  get_prefix (mkNode comp_op [kw "not"; kw "in"] (Some " ")) = " " /\
  str (mkNode comp_op [kw "not"; kw "in"] (Some " ")) =
    " " ++ strip (str (mkNode comp_op [kw "not"; kw "in"] (Some " "))) /\
  In (strip (str (mkNode comp_op [kw "not"; kw "in"] (Some " ")))) inversion_keys.
Proof.
  apply (@invert_operator_result_prefix (Leaf NAME "in" " " 1) _
           {| flags := []; ctx := []; site := kw "x"; taken := None |}
           {| flags := []; ctx := []; site := kw "x"; taken := None |} []).
  vm_compute. reflexivity.
Defined.

(** ** Rule 2 *)

Lemma is_eq_op_shape op :
  is_eq_op op = true <->
  exists p ln, op = Leaf EQEQUAL "==" p ln \/ op = Leaf NOTEQUAL "!=" p ln.
Proof.
  split.
  - unfold is_eq_op, is_lit.
    repeat (cbn; gstep); cbn; intro H; try discriminate H; eauto.
  - intros (p & ln & [->| ->]); reflexivity.
Qed.

(** X6: the pattern of rule 2 matches exactly the comparisons of three
    children with [==] or [!=] in the middle and the name [None] last, or,
    those apart, first; [a] is the other operand, and [op], a group, is
    captured as the list of the operator. *)
Theorem none_pattern_matches (n : tree) :
  (pattern_match PATTERN_none n =
     if none_right n then
       Some [("node", CNode []); ("a", CNode [0]); ("op", CList [[1]]);
             ("none", CNode [2]); ("comparison", CNode [])]
     else if none_left n then
       Some [("node", CNode []); ("none", CNode [0]); ("op", CList [[1]]);
             ("a", CNode [2]); ("comparison", CNode [])]
     else None) /\
  (none_right n = true <->
   exists a op p ln,
     n = Node comparison [a; op; Leaf NAME "None" p ln] /\ is_eq_op op = true) /\
  (none_left n = true <->
   exists p ln op b,
     n = Node comparison [Leaf NAME "None" p ln; op; b] /\ is_eq_op op = true).
Proof.
  split; [apply none_nf|]. split; split.
  - unfold none_right, is_lit. fold (is_lit EQEQUAL "==") (is_lit NOTEQUAL "!=").
    destruct n as [|ty [|a [|op [|none [|]]]]]; cbn; try discriminate;
      try (intro H; apply andb_prop in H; destruct H; discriminate).
    intro H. apply andb_prop in H. destruct H as [H1 H2].
    apply type_is_sym in H1. destruct H1 as (cs & [= -> _]).
    apply andb_prop in H2. destruct H2 as [H2 H3].
    apply leaf_is_lit in H3. destruct H3 as (p & ln & ->). eauto 8.
  - intros (a & op & p & ln & -> & H). unfold none_right. cbn.
    rewrite H. reflexivity.
  - unfold none_left, is_lit.
    destruct n as [|ty [|none [|op [|b [|]]]]]; cbn; try discriminate;
      try (intro H; apply andb_prop in H; destruct H; discriminate).
    intro H. apply andb_prop in H. destruct H as [H1 H2].
    apply type_is_sym in H1. destruct H1 as (cs & [= -> _]).
    apply andb_prop in H2. destruct H2 as [H2 H3].
    apply leaf_is_lit in H2. destruct H2 as (p & ln & ->). eauto 8.
  - intros (p & ln & op & b & -> & H). unfold none_left. cbn.
    rewrite H. reflexivity.
Qed.

(** X7: rule 2 never raises and needs no parent: at a match it writes the
    operator and puts [is], for [==], or [is not], for [!=], in its place;
    anywhere else it does nothing. *)
Theorem none_rule_outcome fl c (n : tree) :
  transform PATTERN_none simplify_none_operand fl c n =
  if none_right n || none_left n then
    match n with
    | Node _ [a; op; b] =>
        ([str op ++ LF],
         inr (Node comparison
                [a;
                 if has_type op EQEQUAL then kw "is"
                 else Node comp_op [kw "is"; kw "not"];
                 b]))
    | _ => ([], inr n)
    end
  else ([], inr n).
Proof.
  unfold transform. rewrite none_nf.
  unfold none_right, none_left, is_eq_op, is_lit.
  repeat (cbn; gstep); cbn; reflexivity.
Qed.

(** ** Rule 4 *)

(** X8: in an assignment whose right-hand side is a parenthesised atom,
    rule 4 puts what is inside the parentheses, with the prefix of the
    opening parenthesis, in the place of the atom, when both parentheses
    start on one line and the inside is no [testlist_gexp]; otherwise it
    leaves the assignment alone.  It raises nothing and needs no parent. *)
Theorem parens_assignment_outcome fl c lhs ep el p l i q l' :
  transform PATTERN_parens remove_extra_parentheses fl c
    (Node expr_stmt
       [lhs; Leaf EQUAL "=" ep el;
        Node atom [Leaf LPAR "(" p l; i; Leaf RPAR ")" q l']]) =
  ([], inr (Node expr_stmt
              [lhs; Leaf EQUAL "=" ep el;
               if (l =? l')%nat && negb (node_type_is i testlist_gexp)
               then set_prefix i p
               else Node atom [Leaf LPAR "(" p l; i; Leaf RPAR ")" q l']])).
Proof.
  unfold transform. rewrite parens_nf.
  replace (assignment_form _) with true by reflexivity. cbn.
  destruct (l =? l')%nat; cbn; [|reflexivity].
  destruct (node_type_is i testlist_gexp); cbn; [reflexivity|].
  rewrite clone_id. reflexivity.
Qed.

(** X9: at a parenthesised atom around a NAME, a NUMBER, a STRING, a
    factor or another parenthesised atom, rule 4 leaves the atom alone
    when the parentheses start on different lines, puts the inside, with
    the prefix of the atom, in its place when the atom has a parent, and
    raises AssertionError when it has none. *)
Theorem parens_general_outcome fl c p l i q l' :
  inner_simple i = true ->
  transform PATTERN_parens remove_extra_parentheses fl c
    (Node atom [Leaf LPAR "(" p l; i; Leaf RPAR ")" q l']) =
  if (l =? l')%nat then
    match c with
    | [] => ([], inl AssertionError)
    | _ :: _ => ([], inr (set_prefix i p))
    end
  else ([], inr (Node atom [Leaf LPAR "(" p l; i; Leaf RPAR ")" q l'])).
Proof.
  intro H. unfold transform. rewrite parens_nf.
  replace (assignment_form _) with false by reflexivity.
  replace (general_form (Node atom [Leaf LPAR "(" p l; i; Leaf RPAR ")" q l']))
    with true
    by (unfold general_form, paren_atom; cbn; rewrite H; reflexivity).
  cbn. destruct (l =? l')%nat; cbn; [|reflexivity].
  destruct c; cbn; [reflexivity|]. rewrite clone_id. reflexivity.
Qed.

Lemma parens_general_outcome_witness :
  transform PATTERN_parens remove_extra_parentheses []
    [{| f_type := return_stmt; f_left := [Leaf NAME "return" "" 1];
        f_right := [] |}]
    (Node atom [Leaf LPAR "(" " " 1; Leaf NAME "x" "" 1; Leaf RPAR ")" "" 1]) =
  ([], inr (Leaf NAME "x" " " 1)).
Proof.
  apply (@parens_general_outcome []
           [{| f_type := return_stmt; f_left := [Leaf NAME "return" "" 1];
               f_right := [] |}] " " 1 (Leaf NAME "x" "" 1) "" 1).
  reflexivity.
Defined.

(** X10: at a node that is no atom and has three children, a parenthesis,
    a parenthesised atom around a generator clause and a parenthesis (the
    trailer of [f((x for x in y))]), rule 4 puts the generator clause, with
    the prefix of the inner atom, in the place of that atom when its
    parentheses start on one line. *)
Theorem parens_nested_outcome fl c ty p0 l0 p l e fs q l' q0 l1 :
  ty <> atom ->
  transform PATTERN_parens remove_extra_parentheses fl c
    (Node ty
       [Leaf LPAR "(" p0 l0;
        Node atom
          [Leaf LPAR "(" p l; Node testlist_gexp [e; Node comp_for fs];
           Leaf RPAR ")" q l'];
        Leaf RPAR ")" q0 l1]) =
  ([], inr (Node ty
              [Leaf LPAR "(" p0 l0;
               if (l =? l')%nat
               then Node testlist_gexp [set_prefix e p; Node comp_for fs]
               else Node atom
                      [Leaf LPAR "(" p l;
                       Node testlist_gexp [e; Node comp_for fs];
                       Leaf RPAR ")" q l'];
               Leaf RPAR ")" q0 l1])).
Proof.
  intro H. unfold transform. rewrite parens_nf.
  destruct ty; try contradiction;
    replace (assignment_form _) with false by reflexivity;
    replace (general_form _) with false by reflexivity;
    replace (nested_form _) with true by reflexivity;
    cbn; (destruct (l =? l')%nat; cbn; [|reflexivity]);
    rewrite ?clone_id, ?map_clone_id; reflexivity.
Qed.

Lemma parens_nested_outcome_witness :
  transform PATTERN_parens remove_extra_parentheses []
    [{| f_type := power; f_left := [Leaf NAME "f" "" 1]; f_right := [] |}]
    (Node trailer
       [Leaf LPAR "(" "" 1;
        Node atom
          [Leaf LPAR "(" "" 1;
           Node testlist_gexp
             [Leaf NAME "x" "" 1;
              Node comp_for
                [Leaf NAME "for" " " 1; Leaf NAME "x" " " 1;
                 Leaf NAME "in" " " 1; Leaf NAME "y" " " 1]];
           Leaf RPAR ")" "" 1];
        Leaf RPAR ")" "" 1]) =
  ([], inr (Node trailer
              [Leaf LPAR "(" "" 1;
               if (1 =? 1)%nat
               then Node testlist_gexp
                      [set_prefix (Leaf NAME "x" "" 1) "";
                       Node comp_for
                         [Leaf NAME "for" " " 1; Leaf NAME "x" " " 1;
                          Leaf NAME "in" " " 1; Leaf NAME "y" " " 1]]
               else Node atom
                      [Leaf LPAR "(" "" 1;
                       Node testlist_gexp
                         [Leaf NAME "x" "" 1;
                          Node comp_for
                            [Leaf NAME "for" " " 1; Leaf NAME "x" " " 1;
                             Leaf NAME "in" " " 1; Leaf NAME "y" " " 1]];
                       Leaf RPAR ")" "" 1];
               Leaf RPAR ")" "" 1])).
Proof.
  apply (@parens_nested_outcome []
           [{| f_type := power; f_left := [Leaf NAME "f" "" 1]; f_right := [] |}]
           trailer "" 1 "" 1 (Leaf NAME "x" "" 1)
           [Leaf NAME "for" " " 1; Leaf NAME "x" " " 1;
            Leaf NAME "in" " " 1; Leaf NAME "y" " " 1] "" 1 "" 1).
  discriminate.
Defined.

(** X11: at a node that has a parent rule 4 never raises. *)
Theorem parens_rule_never_raises fl c (n : tree) :
  c <> [] ->
  exists t, transform PATTERN_parens remove_extra_parentheses fl c n = ([], inr t).
Proof.
  intro Hc. destruct c as [|f c]; [contradiction|]. clear Hc.
  unfold transform. rewrite parens_nf.
  unfold assignment_form, general_form, nested_form, inner_simple,
    generator_clause, paren_atom, is_lit.
  repeat (cbn; gstep); cbn.
  all: try (eexists; reflexivity).
  all: match goal with
       | |- context [(?a =? ?b)%nat] => destruct (a =? b)%nat
       end; cbn.
  all: try (eexists; reflexivity).
  all: match goal with
       | |- context [node_type_is ?i ?s] => destruct (node_type_is i s)
       end; cbn.
  all: eexists; reflexivity.
Qed.

Lemma parens_rule_never_raises_witness :
  exists t,
    transform PATTERN_parens remove_extra_parentheses []
      [{| f_type := simple_stmt; f_left := []; f_right := [] |}]
      (Node atom
         [Leaf LPAR "(" "" 1;
          Node atom [Leaf LPAR "(" "" 1; Leaf NAME "x" "" 1; Leaf RPAR ")" "" 1];
          Leaf RPAR ")" "" 1]) = ([], inr t).
Proof.
  apply (@parens_rule_never_raises []
           [{| f_type := simple_stmt; f_left := []; f_right := [] |}]).
  discriminate.
Defined.

(** ** The [flags] dict *)

Lemma blind_ret (A : Type) (a : A) : flag_blind (ret a).
Proof. intros fl s. reflexivity. Qed.

Lemma blind_raise (A : Type) (e : exn) : flag_blind (raise A e).
Proof. intros fl s. reflexivity. Qed.

Lemma blind_bind (A B : Type) (m : M A) (f : A -> M B) :
  flag_blind m -> (forall a, flag_blind (f a)) -> flag_blind (bind m f).
Proof.
  intros Hm Hf fl s. unfold bind. rewrite Hm.
  destruct (m s) as [o1 [e|[a s1]]]; [reflexivity|].
  rewrite Hf. destruct (f a s1) as [o2 [e|[b s2]]]; reflexivity.
Qed.

Lemma blind_print line : flag_blind (print line).
Proof. intros fl s. reflexivity. Qed.

Lemma blind_lift (A : Type) (e : exn) (o : option A) : flag_blind (lift e o).
Proof. destruct o; intros fl s; reflexivity. Qed.

Lemma blind_node_at p : flag_blind (node_at p).
Proof.
  intros fl s. unfold node_at. cbn. destruct (subtree (site s) p); reflexivity.
Qed.

Lemma blind_getitem d k : flag_blind (getitem d k).
Proof. apply blind_lift. Qed.

Lemma blind_as_node v : flag_blind (as_node v).
Proof. destruct v; intros fl s; reflexivity. Qed.

Lemma blind_index0 v : flag_blind (index0 v).
Proof. destruct v as [|[|? ?]]; intros fl s; reflexivity. Qed.

Lemma blind_parent_ref p : flag_blind (parent_ref p).
Proof. destruct p; intros fl s; reflexivity. Qed.

Lemma blind_replace p t : flag_blind (replace p t).
Proof.
  intros fl s. unfold replace. cbn.
  destruct p; [destruct (ctx s)|destruct (replace_at _ _ _)]; reflexivity.
Qed.

Lemma blind_get_suffix p : flag_blind (get_suffix p).
Proof.
  intros fl s. unfold get_suffix. cbn [with_flags ctx site]. destruct p.
  - destruct (ctx s) as [|[ty l [|r rs]] c]; reflexivity.
  - destruct (subtree _ _) as [t|]; [|reflexivity].
    destruct (nth_error (children t) _); reflexivity.
Qed.

Create HintDb blind.
#[local] Hint Resolve blind_ret blind_raise blind_print blind_lift blind_node_at
  blind_getitem blind_as_node blind_index0 blind_parent_ref blind_replace
  blind_get_suffix : blind.

Ltac unread :=
  repeat first
    [ progress auto with blind
    | apply blind_bind; [|intro]
    | match goal with
      | |- flag_blind (match ?x with _ => _ end) => destruct x
      | |- flag_blind (if ?b then _ else _) => destruct b
      end ].

Lemma blind_child_ref p i : flag_blind (child_ref p i).
Proof. unfold child_ref. unread. Qed.

Lemma blind_set_type p ty : flag_blind (set_type p ty).
Proof.
  unfold set_type. apply blind_bind; [auto with blind|]. intros n fl s. cbn.
  destruct (replace_at _ _ _); reflexivity.
Qed.

Lemma blind_invert_operator op : flag_blind (invert_operator op).
Proof. unfold invert_operator. unread. Qed.

#[local] Hint Resolve blind_child_ref blind_set_type blind_invert_operator
  : blind.

Lemma blind_retype_ifpart caps : flag_blind (retype_ifpart caps).
Proof. unfold retype_ifpart. unread. Qed.

#[local] Hint Resolve blind_retype_ifpart : blind.

Lemma blind_transform pattern callback :
  (forall caps, flag_blind (callback [] caps)) ->
  forall fl1 fl2 c n,
    transform pattern callback fl1 c n = transform pattern callback fl2 c n.
Proof.
  intros H fl1 fl2 c n. unfold transform.
  destruct (pattern_match pattern n) as [caps|]; [|reflexivity].
  change {| flags := fl1; ctx := c; site := n; taken := None |}
    with (with_flags fl1 {| flags := fl2; ctx := c; site := n; taken := None |}).
  rewrite H. destruct (callback _ _ _) as [o [e|[u s]]]; reflexivity.
Qed.

(** X12: no callback reads the module-level [flags] dict that [main]
    fills: with any two dicts each of the five rules writes the same lines
    and leaves the same tree, or raises the same exception. *)
Theorem flags_are_never_read :
  Forall (fun r : rule =>
            forall fl1 fl2 c n,
              transform (fst r) (snd r) fl1 c n =
              transform (fst r) (snd r) fl2 c n)
         rules.
Proof.
  unfold rules. repeat constructor; cbn [fst snd]; apply blind_transform; intro caps.
  - unfold simplify_not_operators. unread.
  - unfold simplify_none_operand. unread.
  - unfold make_dict_comprehension. unread.
  - unfold make_set_comprehension. unread.
  - unfold remove_extra_parentheses. unread.
Qed.

(** ** Rule 3 *)

Lemma forloop_gen_eq :
  generate_matches FORLOOP =
  node_gen (Some comp_for)
    (Some (true,
           [wild_gen (Some [[star_gen; in_gen; any_gen; opt_if_gen]]) 1 1 None]))
    (Some "forloop").
Proof. reflexivity. Qed.

Lemma star_gen_results ns cr : In cr (star_gen ns) -> snd cr = [].
Proof.
  unfold star_gen, wild_gen. cbn [bind_name]. rewrite map_pair_eta.
  apply star_results.
Qed.

Lemma in_gen_results ns cr : In cr (in_gen ns) -> snd cr = [].
Proof.
  unfold in_gen, leaf_gen. destruct ns as [|[pos n] ns]; [intros []|].
  destruct (leaf_is _ _ _); [|intros []]. intros [<-|[]]. reflexivity.
Qed.

Lemma any_gen_results ns cr : In cr (any_gen ns) -> snd cr = [].
Proof.
  unfold any_gen, node_gen. destruct ns as [|[pos n] ns]; [intros []|].
  change (type_is None n) with true. cbn. intros [<-|[]]. reflexivity.
Qed.

Lemma ifpart_gen_results ns cr :
  In cr (ifpart_gen ns) -> exists q, snd cr = [("ifpart", CNode q)].
Proof.
  unfold ifpart_gen, node_gen. destruct ns as [|[pos n] ns]; [intros []|].
  destruct (type_is _ _); [|intros []].
  destruct (submatch true [star_gen] (kids pos n)) as [r|] eqn:E; [|intros []].
  apply star_submatch_inv in E. subst r. intros [<-|[]]. exists pos. reflexivity.
Qed.

(** a wildcard that has matched as often as it may stops *)
Lemma recursive_matches_full fuel alts mn ns :
  (mn <= 1)%N -> recursive_matches fuel alts mn 1 ns 1 = [(0, [])].
Proof.
  intro H. destruct fuel; cbn [recursive_matches].
  all: replace (mn <=? N.of_nat 1)%N with true
         by (symmetry; apply N.leb_le; cbn; exact H).
  all: reflexivity.
Qed.

Lemma opt_if_gen_results ns cr : In cr (opt_if_gen ns) -> small (snd cr).
Proof.
  unfold opt_if_gen, wild_gen. cbn [bind_name]. rewrite map_pair_eta.
  cbn [recursive_matches]. cbn [N.of_nat N.leb N.compare N.ltb app].
  intros [<-|H]; [left; reflexivity|].
  cbn [flat_map] in H. rewrite app_nil_r in H.
  apply in_flat_map in H. destruct H as (cr0 & H0 & H).
  rewrite recursive_matches_full in H by (cbn; discriminate).
  destruct H as [<-|[]]. cbn [snd].
  cbn [seq_matches flat_map] in H0. apply in_flat_map in H0.
  destruct H0 as (cr1 & H1 & [<-|[]]).
  apply ifpart_gen_results in H1. destruct H1 as (q & ->).
  right. exists q. reflexivity.
Qed.

Lemma update_small r : small r -> update (update [] []) r = r.
Proof. intros [->|(q & ->)]; reflexivity. Qed.

(** a generator without captures in front of a sequence *)
Lemma seq_small (g : generator) (rest : list generator) :
  (forall ns cr, In cr (g ns) -> snd cr = []) ->
  (forall ns cr, In cr (seq_matches rest ns) -> small (snd cr)) ->
  forall ns cr, In cr (seq_matches (g :: rest) ns) -> small (snd cr).
Proof.
  intros Hg Hrest ns cr. cbn [seq_matches]. intro H.
  apply in_flat_map in H. destruct H as (cr0 & H0 & H).
  destruct rest as [|g' rest'].
  - destruct H as [<-|[]]. rewrite (Hg _ _ H0). left. reflexivity.
  - apply in_map_iff in H. destruct H as (cr1 & <- & H1). cbn [snd].
    rewrite (Hg _ _ H0). apply Hrest in H1. rewrite update_small; assumption.
Qed.

Lemma forloop_seq_small ns cr :
  In cr (seq_matches [star_gen; in_gen; any_gen; opt_if_gen] ns) ->
  small (snd cr).
Proof.
  revert ns cr. apply seq_small; [apply star_gen_results|].
  apply seq_small; [apply in_gen_results|].
  apply seq_small; [apply any_gen_results|].
  intros ns cr H. cbn [seq_matches] in H. rewrite flat_map_unit in H.
  apply opt_if_gen_results in H. exact H.
Qed.

Lemma update_nil_small r : small r -> update (update [] r) [] = r.
Proof. intros [->|(q & ->)]; reflexivity. Qed.

(** Whatever a [comp_for] node looks like, the pattern
    [FORLOOP] binds the name [forloop] to the node itself, never to a
    list. *)
Lemma forloop_results pos f rest :
  generate_matches FORLOOP ((pos, f) :: rest) = [] \/
  generate_matches FORLOOP ((pos, f) :: rest) = [(1, [("forloop", CNode pos)])] \/
  exists q,
    generate_matches FORLOOP ((pos, f) :: rest) =
      [(1, [("ifpart", CNode q); ("forloop", CNode pos)])].
Proof.
  rewrite forloop_gen_eq. unfold node_gen.
  destruct (type_is (Some comp_for) f); [|left; reflexivity].
  unfold submatch.
  destruct (find _ _) as [cr|] eqn:F; [|left; reflexivity].
  apply find_some in F. destruct F as [F _].
  cbn [seq_matches] in F. rewrite flat_map_unit in F.
  unfold wild_gen in F. cbn [bind_name] in F. rewrite map_pair_eta in F.
  assert (S : small (snd cr)).
  { cbn [recursive_matches] in F.
    cbn [N.of_nat N.leb N.compare N.ltb app flat_map] in F.
    rewrite app_nil_r in F.
    apply in_flat_map in F. destruct F as (cr0 & F0 & F).
    rewrite recursive_matches_full in F by (cbn; discriminate).
    destruct F as [<-|[]]. cbn [snd].
    apply forloop_seq_small in F0.
    rewrite update_nil_small; assumption. }
  destruct S as [->|(q & ->)]; right; [left|right; exists q]; reflexivity.
Qed.

Lemma forloop_nil : generate_matches FORLOOP [] = [].
Proof. reflexivity. Qed.

(** One step of evaluating a pattern of rule 3: the generator [g] of
    [FORLOOP] is taken through what it can yield. *)
Ltac fstep g Hg Hg0 :=
  first
    [ rewrite Hg0
    | match goal with
      | |- context [g ?x] =>
          lazymatch x with
          | (?pos, ?f) :: ?rest =>
              let r := fresh "r" in
              let E := fresh "E" in
              set (r := g x);
              assert (E : r = [] \/
                          r = [(1, [("forloop", CNode pos)])] \/
                          exists q,
                            r = [(1, [("ifpart", CNode q);
                                      ("forloop", CNode pos)])])
                by exact (Hg pos f rest);
              clearbody r; destruct E as [->|[->|(? & ->)]]
          end
      | |- context [g (number _ _ ?x)] => is_var x; destruct x
      end
    | gstep ].

Lemma dict_raises fl c n caps :
  pattern_match PATTERN_dict n = Some caps ->
  transform PATTERN_dict make_dict_comprehension fl c n = ([], inl TypeError).
Proof.
  unfold transform, pattern_match, match_one, PATTERN_dict. fold FORLOOP.
  cbn [generate_matches map existsb is_wildcard orb].
  generalize forloop_results forloop_nil. generalize (generate_matches FORLOOP).
  intros g Hg Hg0. revert caps.
  repeat (cbn; fstep g Hg Hg0).
  all: cbn; intros caps H; try discriminate H; reflexivity.
Qed.

Lemma set_raises fl c n caps :
  pattern_match PATTERN_set n = Some caps ->
  transform PATTERN_set make_set_comprehension fl c n = ([], inl TypeError).
Proof.
  unfold transform, pattern_match, match_one, PATTERN_set. fold FORLOOP.
  cbn [generate_matches map existsb is_wildcard orb].
  generalize forloop_results forloop_nil. generalize (generate_matches FORLOOP).
  intros g Hg Hg0. revert caps.
  repeat (cbn; fstep g Hg Hg0).
  all: cbn; intros caps H; try discriminate H; reflexivity.
Qed.

(** X14: at every node the pattern of the dict rule matches, the callback
    raises TypeError, from indexing the capture [forloop], which is a
    node; so the dict rule never rewrites anything. *)
Theorem dict_rule_raises_at_every_match fl c n caps :
  pattern_match PATTERN_dict n = Some caps ->
  transform PATTERN_dict make_dict_comprehension fl c n = ([], inl TypeError).
Proof. apply dict_raises. Qed.

Lemma dict_rule_raises_at_every_match_witness :
  transform PATTERN_dict make_dict_comprehension [] []
    (Node power
       [Leaf NAME "dict" "" 1;
        Node trailer
          [Leaf LPAR "(" "" 1;
           Node argument
             [Node atom
                [Leaf LPAR "(" "" 1;
                 Node testlist_gexp
                   [Leaf NAME "k" "" 1; Leaf COMMA "," "" 1; Leaf NAME "v" " " 1];
                 Leaf RPAR ")" "" 1];
              Node comp_for
                [Leaf NAME "for" " " 1; Leaf NAME "k" " " 1;
                 Leaf NAME "in" " " 1; Leaf NAME "x" " " 1;
                 Node comp_if [Leaf NAME "if" " " 1; Leaf NAME "k" " " 1]]];
           Leaf RPAR ")" "" 1]]) =
  ([], inl TypeError).
Proof.
  eapply (@dict_rule_raises_at_every_match [] []).
  vm_compute. reflexivity.
Defined.

(** X15: the same for the set rule: at every match the callback raises
    TypeError and nothing is rewritten. *)
Theorem set_rule_raises_at_every_match fl c n caps :
  pattern_match PATTERN_set n = Some caps ->
  transform PATTERN_set make_set_comprehension fl c n = ([], inl TypeError).
Proof. apply set_raises. Qed.

Lemma set_rule_raises_at_every_match_witness :
  transform PATTERN_set make_set_comprehension [] []
    (Node power
       [Leaf NAME "set" "" 1;
        Node trailer
          [Leaf LPAR "(" "" 1;
           Node atom
             [Leaf LPAR "(" "" 1;
              Node testlist_gexp
                [Leaf NAME "a" "" 1;
                 Node comp_for
                   [Leaf NAME "for" " " 1; Leaf NAME "a" " " 1;
                    Leaf NAME "in" " " 1; Leaf NAME "x" " " 1]];
              Leaf RPAR ")" "" 1];
           Leaf RPAR ")" "" 1]]) =
  ([], inl TypeError).
Proof.
  eapply (@set_rule_raises_at_every_match [] []).
  vm_compute. reflexivity.
Defined.

(** ** The forms of rule 4 *)

Lemma inner_simple_shape i :
  inner_simple i = true <->
  (exists v p l, i = Leaf NAME v p l) \/
  (exists v p l, i = Leaf NUMBER v p l) \/
  (exists v p l, i = Leaf STRING v p l) \/
  (exists cs, i = Node factor cs) \/
  (exists p l j q l',
     i = Node atom [Leaf LPAR "(" p l; j; Leaf RPAR ")" q l']).
Proof.
  split.
  - unfold inner_simple, paren_atom, is_lit.
    repeat (cbn; gstep); cbn; intro H; try discriminate H.
    + left. eauto.
    + right. left. eauto.
    + right. right. left. eauto.
    + right. right. right. left. eauto.
    + right. right. right. right. eauto 8.
  - intros [H|[H|[H|[H|H]]]].
    + destruct H as (v & p & l & ->). reflexivity.
    + destruct H as (v & p & l & ->). reflexivity.
    + destruct H as (v & p & l & ->). reflexivity.
    + destruct H as (cs & ->). reflexivity.
    + destruct H as (p & l & j & q & l' & ->). reflexivity.
Qed.

(** the three forms of rule 4, written out *)
Lemma forms_shape (n : tree) :
  (assignment_form n = true <->
   exists lhs ep el p l i q l',
     n = Node expr_stmt
           [lhs; Leaf EQUAL "=" ep el;
            Node atom [Leaf LPAR "(" p l; i; Leaf RPAR ")" q l']]) /\
  (general_form n = true <->
   exists p l i q l',
     n = Node atom [Leaf LPAR "(" p l; i; Leaf RPAR ")" q l'] /\
     inner_simple i = true) /\
  (nested_form n = true <->
   exists ty p0 l0 p l e fs q l' q0 l1,
     n = Node ty
           [Leaf LPAR "(" p0 l0;
            Node atom
              [Leaf LPAR "(" p l; Node testlist_gexp [e; Node comp_for fs];
               Leaf RPAR ")" q l'];
            Leaf RPAR ")" q0 l1]).
Proof.
  split; [|split]; split.
  - unfold assignment_form, paren_atom, is_lit.
    repeat (cbn; gstep); cbn; intro H; try discriminate H.
    do 8 eexists. reflexivity.
  - intros (lhs & ep & el & p & l & i & q & l' & ->). reflexivity.
  - unfold general_form, paren_atom, is_lit.
    destruct n as [|ty [|lp [|i [|rp [|]]]]]; cbn; try discriminate;
      try (intro H; apply andb_prop in H; destruct H; discriminate).
    intro H. apply andb_prop in H. destruct H as [H1 H].
    apply andb_prop in H. destruct H as [H H3].
    apply andb_prop in H. destruct H as [H2 H4].
    apply type_is_sym in H1. destruct H1 as (cs & [= -> _]).
    apply leaf_is_lit in H2. destruct H2 as (p & l & ->).
    apply leaf_is_lit in H3. destruct H3 as (q & l' & ->).
    do 5 eexists. split; [reflexivity|exact H4].
  - intros (p & l & i & q & l' & -> & H). unfold general_form, paren_atom.
    cbn. rewrite H. reflexivity.
  - unfold nested_form, generator_clause, paren_atom, is_lit.
    repeat (cbn; gstep); cbn; intro H; try discriminate H.
    do 11 eexists. reflexivity.
  - intros (ty & p0 & l0 & p & l & e & fs & q & l' & q0 & l1 & ->).
    reflexivity.
Qed.

(** X16: the pattern of rule 4 matches a node exactly when the node is of
    one of three shapes: an [expr_stmt] of three children, anything, the
    token [=] and a parenthesised atom; a parenthesised atom around a NAME,
    NUMBER or STRING leaf, a [factor] node or a parenthesised atom; a node
    of any type with three children, a parenthesis, a parenthesised atom
    around a [testlist_gexp] of two children the second of which is a
    [comp_for], and a parenthesis. *)
Theorem parens_pattern_written_out (n : tree) :
  (exists caps, pattern_match PATTERN_parens n = Some caps) <->
  (exists lhs ep el p l i q l',
     n = Node expr_stmt
           [lhs; Leaf EQUAL "=" ep el;
            Node atom [Leaf LPAR "(" p l; i; Leaf RPAR ")" q l']]) \/
  (exists p l i q l',
     n = Node atom [Leaf LPAR "(" p l; i; Leaf RPAR ")" q l'] /\
     ((exists v p1 l1, i = Leaf NAME v p1 l1) \/
      (exists v p1 l1, i = Leaf NUMBER v p1 l1) \/
      (exists v p1 l1, i = Leaf STRING v p1 l1) \/
      (exists cs, i = Node factor cs) \/
      (exists p1 l1 j q1 l1',
         i = Node atom [Leaf LPAR "(" p1 l1; j; Leaf RPAR ")" q1 l1']))) \/
  (exists ty p0 l0 p l e fs q l' q0 l1,
     n = Node ty
           [Leaf LPAR "(" p0 l0;
            Node atom
              [Leaf LPAR "(" p l; Node testlist_gexp [e; Node comp_for fs];
               Leaf RPAR ")" q l'];
            Leaf RPAR ")" q0 l1]).
Proof.
  rewrite parens_nf.
  destruct (forms_shape n) as (HA & HB & HC).
  split.
  - intros (caps & H).
    destruct (assignment_form n); [left; apply HA; reflexivity|].
    destruct (general_form n).
    { right; left. destruct (proj1 HB eq_refl) as (p & l & i & q & l' & -> & Hi).
      do 5 eexists. split; [reflexivity|]. apply inner_simple_shape, Hi. }
    destruct (nested_form n); [right; right; apply HC; reflexivity|].
    discriminate H.
  - intros [H|[H|H]].
    + apply HA in H. rewrite H. eauto.
    + destruct H as (p & l & i & q & l' & -> & Hi).
      apply inner_simple_shape in Hi.
      assert (G : general_form (Node atom [Leaf LPAR "(" p l; i; Leaf RPAR ")" q l']) = true)
        by (apply HB; eauto 8).
      rewrite G. destruct (assignment_form _); eauto.
    + apply HC in H. rewrite H.
      destruct (assignment_form n); [eauto|]. destruct (general_form n); eauto.
Qed.

(** X17: what rule 4 leaves can be matched by rule 4 again: from a
    parenthesised atom around a parenthesised atom it leaves the inner
    atom, which its pattern matches when that atom is around a NAME, a
    NUMBER, a STRING, a factor or a parenthesised atom. *)
Theorem parens_result_matched_again fl c p l p1 l1 i q1 l1' q :
  inner_simple i = true ->
  c <> [] ->
  exists t,
    transform PATTERN_parens remove_extra_parentheses fl c
      (Node atom
         [Leaf LPAR "(" p l;
          Node atom [Leaf LPAR "(" p1 l1; i; Leaf RPAR ")" q1 l1'];
          Leaf RPAR ")" q l]) = ([], inr t) /\
    t = Node atom [Leaf LPAR "(" p l1; i; Leaf RPAR ")" q1 l1'] /\
    pattern_match PATTERN_parens t =
      Some [("node", CNode []); ("inner", CList [[1]]); ("outer", CNode [])].
Proof.
  intros Hi Hc. eexists. split; [|split; [reflexivity|]].
  - rewrite parens_general_outcome by reflexivity.
    rewrite Nat.eqb_refl. destruct c; [contradiction|]. reflexivity.
  - rewrite parens_nf.
    replace (assignment_form _) with false by reflexivity.
    replace (general_form _) with true
      by (unfold general_form, paren_atom; cbn; rewrite Hi; reflexivity).
    reflexivity.
Qed.

Lemma parens_result_matched_again_witness :
  exists t,
    transform PATTERN_parens remove_extra_parentheses []
      [{| f_type := simple_stmt; f_left := []; f_right := [] |}]
      (Node atom
         [Leaf LPAR "(" "" 1;
          Node atom [Leaf LPAR "(" "" 1; Leaf NAME "x" "" 1; Leaf RPAR ")" "" 1];
          Leaf RPAR ")" "" 1]) = ([], inr t) /\
    t = Node atom [Leaf LPAR "(" "" 1; Leaf NAME "x" "" 1; Leaf RPAR ")" "" 1] /\
    pattern_match PATTERN_parens t =
      Some [("node", CNode []); ("inner", CList [[1]]); ("outer", CNode [])].
Proof.
  apply (@parens_result_matched_again []
           [{| f_type := simple_stmt; f_left := []; f_right := [] |}]
           "" 1 "" 1 (Leaf NAME "x" "" 1) "" 1 "").
  - reflexivity.
  - discriminate.
Defined.

(** * The run over a whole tree *)

(** ** What a new prefix leaves as it is *)

Lemma leaf_is_set_prefix ty v t p :
  leaf_is ty v (set_prefix t p) = leaf_is ty v t.
Proof. destruct t as [| ? [|? ?]]; reflexivity. Qed.

Lemma type_is_set_prefix ty t p :
  type_is ty (set_prefix t p) = type_is ty t.
Proof. destruct t as [| ? [|? ?]]; reflexivity. Qed.

Lemma get_lineno_set_prefix t p : get_lineno (set_prefix t p) = get_lineno t.
Proof.
  induction t as [ty v q ln|ty cs IH] using tree_induction; [reflexivity|].
  destruct cs as [|c cs]; [reflexivity|]. cbn. inversion IH; subst. assumption.
Qed.

Lemma head_gen t v (g : generator) ty c cs p :
  node_gen (Some power)
    (Some (true, [wild_gen (Some [[leaf_gen (Some t) (Some v) None; g]]) 1 1 None]))
    None [([], Node ty (set_prefix c p :: cs))] =
  node_gen (Some power)
    (Some (true, [wild_gen (Some [[leaf_gen (Some t) (Some v) None; g]]) 1 1 None]))
    None [([], Node ty (c :: cs))].
Proof.
  destruct c as [t' v' q ln|ty' cs'].
  - cbn [set_prefix]. unfold node_gen, submatch, wild_gen, kids. cbn.
    change (leaf_is (Some t) (Some v) (Leaf t' v' p ln))
      with (leaf_is (Some t) (Some v) (Leaf t' v' q ln)).
    destruct (leaf_is (Some t) (Some v) (Leaf t' v' q ln)); reflexivity.
  - destruct cs'; reflexivity.
Qed.

Lemma dict_head ty c cs p :
  matches PATTERN_dict (Node ty (set_prefix c p :: cs)) =
  matches PATTERN_dict (Node ty (c :: cs)).
Proof.
  unfold matches, pattern_match, match_one, PATTERN_dict.
  cbn [generate_matches map existsb is_wildcard orb].
  rewrite head_gen. reflexivity.
Qed.

Lemma set_head ty c cs p :
  matches PATTERN_set (Node ty (set_prefix c p :: cs)) =
  matches PATTERN_set (Node ty (c :: cs)).
Proof.
  unfold matches, pattern_match, match_one, PATTERN_set.
  cbn [generate_matches map existsb is_wildcard orb].
  rewrite head_gen. reflexivity.
Qed.

Lemma head_gen_shape t v (g : generator) n :
  node_gen (Some power)
    (Some (true, [wild_gen (Some [[leaf_gen (Some t) (Some v) None; g]]) 1 1 None]))
    None [([], n)] <> [] ->
  exists p ln rest, n = Node power (Leaf t v p ln :: rest).
Proof.
  unfold node_gen, submatch, wild_gen, kids.
  repeat (cbn; gstep); cbn; intro H; try (exfalso; apply H; reflexivity).
  eauto.
Qed.

Lemma dict_shape n :
  matches PATTERN_dict n = true ->
  exists p ln rest, n = Node power (Leaf NAME "dict" p ln :: rest).
Proof.
  unfold matches, pattern_match, match_one, PATTERN_dict.
  cbn [generate_matches map existsb is_wildcard orb].
  intro H. eapply head_gen_shape. intro E. rewrite E in H. discriminate H.
Qed.

Lemma set_shape n :
  matches PATTERN_set n = true ->
  exists p ln rest, n = Node power (Leaf NAME "set" p ln :: rest).
Proof.
  unfold matches, pattern_match, match_one, PATTERN_set.
  cbn [generate_matches map existsb is_wildcard orb].
  intro H. eapply head_gen_shape. intro E. rewrite E in H. discriminate H.
Qed.

Lemma matches_false p n : matches p n = false -> pattern_match p n = None.
Proof. unfold matches. destruct (pattern_match p n); [discriminate|reflexivity]. Qed.

Lemma at_rest_set_prefix t p : at_rest (set_prefix t p) = at_rest t.
Proof.
  destruct t as [ty v q ln|ty [|c cs]]; [reflexivity..|].
  cbn [set_prefix]. unfold at_rest. rewrite dict_head, set_head.
  assert (H1 : not_form (Node ty (set_prefix c p :: cs)) = not_form (Node ty (c :: cs))).
  { unfold not_form, is_lit. cbn [children].
    destruct cs as [|c1 [|c2 cs]]; try reflexivity.
    rewrite leaf_is_set_prefix. reflexivity. }
  assert (H2 : none_right (Node ty (set_prefix c p :: cs)) = none_right (Node ty (c :: cs))).
  { unfold none_right. cbn [children].
    destruct cs as [|c1 [|c2 [|c3 cs]]]; reflexivity. }
  assert (H3 : none_left (Node ty (set_prefix c p :: cs)) = none_left (Node ty (c :: cs))).
  { unfold none_left, is_lit. cbn [children].
    destruct cs as [|c1 [|c2 [|c3 cs]]]; try reflexivity.
    rewrite leaf_is_set_prefix. reflexivity. }
  assert (H4 : parens_kept (Node ty (set_prefix c p :: cs)) = parens_kept (Node ty (c :: cs))).
  { unfold parens_kept, assignment_form, general_form, nested_form, paren_atom,
      lines_differ, is_lit.
    cbn [children].
    destruct cs as [|c1 [|c2 [|c3 cs]]]; try reflexivity.
    rewrite !leaf_is_set_prefix, get_lineno_set_prefix. reflexivity. }
  rewrite H1, H2, H3, H4. reflexivity.
Qed.

Lemma all_at_rest_set_prefix t p : all_at_rest (set_prefix t p) = all_at_rest t.
Proof.
  induction t as [ty v q ln|ty cs IH] using tree_induction; [reflexivity|].
  destruct cs as [|c cs]; [reflexivity|].
  change (all_at_rest (set_prefix (Node ty (c :: cs)) p))
    with (at_rest (set_prefix (Node ty (c :: cs)) p) &&
          (all_at_rest (set_prefix c p) && forallb all_at_rest cs)).
  rewrite at_rest_set_prefix. inversion IH as [|? ? Hc _]; subst.
  rewrite Hc. reflexivity.
Qed.

Lemma parsed_operators_set_prefix t p :
  parsed_operators (set_prefix t p) = parsed_operators t.
Proof.
  induction t as [ty v q ln|ty cs IH] using tree_induction; [reflexivity|].
  destruct cs as [|c cs]; [reflexivity|].
  inversion IH as [|? ? Hc _]; subst.
  cbn [set_prefix parsed_operators forallb]. rewrite Hc.
  destruct ty; reflexivity.
Qed.

(** ** The fixers at one node *)

Lemma try_fixers_cons r rs fl c n :
  try_fixers (r :: rs) fl c n None =
  match pattern_match (fst r) n with
  | None => try_fixers rs fl c n None
  | Some capture =>
      match snd r [] capture
                {| flags := fl; ctx := c; site := n; taken := None |} with
      | (o, inl e) => (o, inl e)
      | (o, inr (_, s)) =>
          ((o ++ fst (try_fixers rs fl c (site s) (taken s)))%list,
           snd (try_fixers rs fl c (site s) (taken s)))
      end
  end.
Proof.
  cbn [try_fixers]. destruct (pattern_match (fst r) n); [|reflexivity].
  destruct (snd r [] _ _) as [o [e|[u s]]]; [reflexivity|].
  destruct (taken s); reflexivity.
Qed.

(** fixers none of which matches the node that was taken out *)
Lemma try_fixers_gone rs fl c here old :
  Forall (fun r : rule => pattern_match (fst r) old = None) rs ->
  try_fixers rs fl c here (Some old) = ([], inr here).
Proof.
  induction 1 as [|r rs H _ IH]; [reflexivity|].
  cbn [try_fixers]. rewrite H. exact IH.
Qed.

Lemma try_fixers_none rs fl c n :
  Forall (fun r : rule => pattern_match (fst r) n = None) rs ->
  try_fixers rs fl c n None = ([], inr n).
Proof.
  induction 1 as [|r rs H _ IH]; [reflexivity|].
  rewrite try_fixers_cons, H. exact IH.
Qed.

Lemma last_fixer r fl c n :
  try_fixers [r] fl c n None = transform (fst r) (snd r) fl c n.
Proof.
  rewrite try_fixers_cons. unfold transform.
  destruct (pattern_match (fst r) n); [|reflexivity].
  destruct (snd r [] _ _) as [o [e|[u s]]]; [reflexivity|].
  destruct (taken s); cbn; rewrite app_nil_r; reflexivity.
Qed.

#[local] Arguments try_fixers : simpl never.

Lemma dict_none n :
  (forall p ln rest, n <> Node power (Leaf NAME "dict" p ln :: rest)) ->
  pattern_match PATTERN_dict n = None.
Proof.
  intro H. apply matches_false. destruct (matches PATTERN_dict n) eqn:E; [|reflexivity].
  apply dict_shape in E. destruct E as (p & ln & rest & ->).
  exfalso. eapply H. reflexivity.
Qed.

Lemma set_none n :
  (forall p ln rest, n <> Node power (Leaf NAME "set" p ln :: rest)) ->
  pattern_match PATTERN_set n = None.
Proof.
  intro H. apply matches_false. destruct (matches PATTERN_set n) eqn:E; [|reflexivity].
  apply set_shape in E. destruct E as (p & ln & rest & ->).
  exfalso. eapply H. reflexivity.
Qed.

(** rule 1 at a node of the shape its pattern asks for, and the other
    rules at the [not_test] node that was taken out *)
Lemma fixers_not fl c p ln cs :
  (N.of_nat (length cs) <= HUGE)%N ->
  try_fixers rules fl c
    (Node not_test [Leaf NAME "not" p ln; Node comparison cs]) None =
  match cs with
  | a :: op :: rest =>
      match assoc OPERATOR_INVERSIONS (strip (str op)) with
      | None => ([], inl KeyError)
      | Some inv =>
          match c with
          | [] => ([], inl AssertionError)
          | _ :: _ => ([], inr (Node comparison (set_prefix a p :: inv :: rest)))
          end
      end
  | _ => ([], inl IndexError)
  end.
Proof.
  intro H. unfold rules. rewrite try_fixers_cons. cbn [fst snd]. rewrite not_nf.
  replace (not_form _) with true
    by (symmetry; apply not_form_shape; eauto 6).
  destruct cs as [|a [|op rest]]; [reflexivity..|].
  destruct (assoc OPERATOR_INVERSIONS (strip (str op))) as [inv|] eqn:E;
    cbn; unfold bind.
  - rewrite (invert_operator_ok _ _ E). destruct c; cbn; [reflexivity|].
    rewrite !clone_id, map_clone_id.
    rewrite try_fixers_gone; [reflexivity|].
    repeat constructor.
  - rewrite (invert_operator_err _ _ E). reflexivity.
Qed.

Lemma parens_cmp a m b :
  type_is (Some atom) m = false ->
  pattern_match PATTERN_parens (Node comparison [a; m; b]) = None.
Proof.
  intro H. rewrite parens_nf.
  replace (assignment_form _) with false by reflexivity.
  replace (general_form _) with false by reflexivity.
  unfold nested_form, paren_atom. cbn [children]. rewrite H.
  rewrite andb_false_r. reflexivity.
Qed.

(** rule 2 at a node its pattern matches, and rules 3 and 4 at what it
    leaves *)
Lemma fixers_none fl c n :
  none_right n || none_left n = true ->
  try_fixers rules fl c n None =
  match n with
  | Node _ [a; op; b] =>
      ([str op ++ LF],
       inr (Node comparison
              [a;
               if has_type op EQEQUAL then kw "is"
               else Node comp_op [kw "is"; kw "not"];
               b]))
  | _ => ([], inr n)
  end.
Proof.
  unfold rules. rewrite try_fixers_cons. cbn [fst snd]. rewrite not_nf.
  assert (T : forall a m b,
             type_is (Some atom) m = false ->
             try_fixers
               [(PATTERN_dict, make_dict_comprehension);
                (PATTERN_set, make_set_comprehension);
                (PATTERN_parens, remove_extra_parentheses)] fl c
               (Node comparison [a; m; b]) None =
             ([], inr (Node comparison [a; m; b]))).
  { intros a m b Hm. apply try_fixers_none.
    constructor; [apply dict_none; discriminate|].
    constructor; [apply set_none; discriminate|].
    constructor; [apply parens_cmp, Hm|constructor]. }
  unfold none_right, none_left, is_eq_op, is_lit, not_form.
  repeat (cbn; gstep); cbn; intro H; try discriminate H.
  all: rewrite try_fixers_cons; cbn [fst snd]; rewrite none_nf.
  all: unfold none_right, none_left, is_eq_op, is_lit.
  all: repeat (cbn; gstep); cbn.
  all: rewrite T by reflexivity; reflexivity.
Qed.

Lemma raises_at p (cb : path -> results -> M unit) fl c n caps o e :
  pattern_match p n = Some caps ->
  transform p cb fl c n = (o, inl e) ->
  cb [] caps {| flags := fl; ctx := c; site := n; taken := None |} = (o, inl e).
Proof.
  intros Hm. unfold transform. rewrite Hm.
  destruct (cb [] caps _) as [o' [e'|[u s]]]; intros [= -> ->]; reflexivity.
Qed.

(** where rules 1 and 2 do not match: rule 3 raises at a match, and
    rule 4 is the last one *)
Lemma fixers_rest fl c n :
  not_form n = false -> none_right n = false -> none_left n = false ->
  try_fixers rules fl c n None =
  if matches PATTERN_dict n || matches PATTERN_set n
  then ([], inl TypeError)
  else transform PATTERN_parens remove_extra_parentheses fl c n.
Proof.
  intros F1 F2 F3. unfold rules.
  rewrite try_fixers_cons. cbn [fst snd]. rewrite not_nf, F1.
  rewrite try_fixers_cons. cbn [fst snd]. rewrite none_nf, F2, F3.
  rewrite try_fixers_cons. cbn [fst snd]. unfold matches.
  destruct (pattern_match PATTERN_dict n) as [caps|] eqn:D.
  { rewrite (@raises_at _ _ _ _ _ _ _ _ D (@dict_raises fl c n caps D)). reflexivity. }
  rewrite try_fixers_cons. cbn [fst snd].
  destruct (pattern_match PATTERN_set n) as [caps|] eqn:S.
  { rewrite (@raises_at _ _ _ _ _ _ _ _ S (@set_raises fl c n caps S)). reflexivity. }
  cbn [orb]. apply last_fixer.
Qed.

Lemma parens_asg fl c lhs ep el p l i q l' :
  transform PATTERN_parens remove_extra_parentheses fl c
    (Node expr_stmt
       [lhs; Leaf EQUAL "=" ep el;
        Node atom [Leaf LPAR "(" p l; i; Leaf RPAR ")" q l']]) =
  ([], inr (Node expr_stmt
              [lhs; Leaf EQUAL "=" ep el;
               if (l =? l')%nat && negb (node_type_is i testlist_gexp)
               then set_prefix i p
               else Node atom [Leaf LPAR "(" p l; i; Leaf RPAR ")" q l']])).
Proof.
  unfold transform. rewrite parens_nf.
  replace (assignment_form _) with true by reflexivity. cbn.
  destruct (l =? l')%nat; cbn; [|reflexivity].
  destruct (node_type_is i testlist_gexp); cbn; [reflexivity|].
  rewrite clone_id. reflexivity.
Qed.

Lemma parens_gen fl c p l i q l' :
  inner_simple i = true ->
  transform PATTERN_parens remove_extra_parentheses fl c
    (Node atom [Leaf LPAR "(" p l; i; Leaf RPAR ")" q l']) =
  if (l =? l')%nat then
    match c with
    | [] => ([], inl AssertionError)
    | _ :: _ => ([], inr (set_prefix i p))
    end
  else ([], inr (Node atom [Leaf LPAR "(" p l; i; Leaf RPAR ")" q l'])).
Proof.
  intro H. unfold transform. rewrite parens_nf.
  replace (assignment_form _) with false by reflexivity.
  replace (general_form (Node atom [Leaf LPAR "(" p l; i; Leaf RPAR ")" q l']))
    with true
    by (unfold general_form, paren_atom; cbn; rewrite H; reflexivity).
  cbn. destruct (l =? l')%nat; cbn; [|reflexivity].
  destruct c; cbn; [reflexivity|]. rewrite clone_id. reflexivity.
Qed.

Lemma parens_nest fl c ty p0 l0 p l e fs q l' q0 l1 :
  ty <> atom ->
  transform PATTERN_parens remove_extra_parentheses fl c
    (Node ty
       [Leaf LPAR "(" p0 l0;
        Node atom
          [Leaf LPAR "(" p l; Node testlist_gexp [e; Node comp_for fs];
           Leaf RPAR ")" q l'];
        Leaf RPAR ")" q0 l1]) =
  ([], inr (Node ty
              [Leaf LPAR "(" p0 l0;
               if (l =? l')%nat
               then Node testlist_gexp [set_prefix e p; Node comp_for fs]
               else Node atom
                      [Leaf LPAR "(" p l;
                       Node testlist_gexp [e; Node comp_for fs];
                       Leaf RPAR ")" q l'];
               Leaf RPAR ")" q0 l1])).
Proof.
  intro H. unfold transform. rewrite parens_nf.
  destruct ty; try contradiction;
    replace (assignment_form _) with false by reflexivity;
    replace (general_form _) with false by reflexivity;
    replace (nested_form _) with true by reflexivity;
    cbn; (destruct (l =? l')%nat; cbn; [|reflexivity]);
    rewrite ?clone_id, ?map_clone_id; reflexivity.
Qed.

(** What rule 4 does at any node: it leaves the node as it is, or takes
    the parentheses of one of its three forms away. *)
Lemma parens_cases fl c n o r :
  transform PATTERN_parens remove_extra_parentheses fl c n = (o, inr r) ->
  o = [] /\
  ((parens_kept n = true /\ r = n) \/
   (exists lhs ep el p l i q,
      n = Node expr_stmt
            [lhs; Leaf EQUAL "=" ep el;
             Node atom [Leaf LPAR "(" p l; i; Leaf RPAR ")" q l]] /\
      node_type_is i testlist_gexp = false /\
      r = Node expr_stmt [lhs; Leaf EQUAL "=" ep el; set_prefix i p]) \/
   (exists p l i q,
      n = Node atom [Leaf LPAR "(" p l; i; Leaf RPAR ")" q l] /\
      inner_simple i = true /\ c <> [] /\ r = set_prefix i p) \/
   (exists ty p0 l0 p l e fs q q0 l1,
      n = Node ty
            [Leaf LPAR "(" p0 l0;
             Node atom
               [Leaf LPAR "(" p l; Node testlist_gexp [e; Node comp_for fs];
                Leaf RPAR ")" q l];
             Leaf RPAR ")" q0 l1] /\
      ty <> atom /\
      r = Node ty
            [Leaf LPAR "(" p0 l0;
             Node testlist_gexp [set_prefix e p; Node comp_for fs];
             Leaf RPAR ")" q0 l1])).
Proof.
  destruct (forms_shape n) as (HA & HB & HC). unfold parens_kept.
  destruct (assignment_form n) eqn:A.
  { destruct (proj1 HA eq_refl) as (lhs & ep & el & p & l & i & q & l' & ->).
    rewrite parens_asg. cbn [children]. unfold lines_differ.
    cbn [children get_lineno option_nat_eqb].
    destruct (Nat.eqb_spec l l') as [<-|Hl]; cbn [negb andb orb].
    - destruct (node_type_is i testlist_gexp) eqn:T; cbn [negb];
        intros [= <- <-]; (split; [reflexivity|]).
      + left. split; reflexivity.
      + right. left. do 7 eexists. split; [reflexivity|]. split; [exact T|reflexivity].
    - intros [= <- <-]. split; [reflexivity|]. left. split; reflexivity. }
  destruct (general_form n) eqn:G.
  { destruct (proj1 HB eq_refl) as (p & l & i & q & l' & -> & Hi).
    rewrite (@parens_gen fl c p l i q l' Hi). unfold lines_differ.
    cbn [children get_lineno option_nat_eqb].
    destruct (Nat.eqb_spec l l') as [<-|Hl]; cbn [negb].
    - destruct c as [|f c']; intros [= <- <-]. split; [reflexivity|].
      right. right. left. do 4 eexists. split; [reflexivity|].
      split; [exact Hi|]. split; [discriminate|reflexivity].
    - intros [= <- <-]. split; [reflexivity|]. left. split; reflexivity. }
  destruct (nested_form n) eqn:Nf.
  { destruct (proj1 HC eq_refl)
      as (ty & p0 & l0 & p & l & e & fs & q & l' & q0 & l1 & ->).
    assert (Hty : ty <> atom) by (intros ->; discriminate G).
    rewrite (@parens_nest fl c ty p0 l0 p l e fs q l' q0 l1 Hty). unfold lines_differ.
    cbn [children get_lineno option_nat_eqb].
    destruct (Nat.eqb_spec l l') as [<-|Hl]; cbn [negb].
    - intros [= <- <-]. split; [reflexivity|].
      right. right. right. do 10 eexists. split; [reflexivity|].
      split; [exact Hty|reflexivity].
    - intros [= <- <-]. split; [reflexivity|]. left. split; reflexivity. }
  rewrite parens_no_match by (rewrite A, G, Nf; reflexivity).
  intros [= <- <-]. split; [reflexivity|]. left. split; reflexivity.
Qed.

Lemma parens_kept_quiet fl c n :
  parens_kept n = true ->
  transform PATTERN_parens remove_extra_parentheses fl c n = ([], inr n).
Proof.
  destruct (forms_shape n) as (HA & HB & HC). unfold parens_kept.
  destruct (assignment_form n) eqn:A.
  { destruct (proj1 HA eq_refl) as (lhs & ep & el & p & l & i & q & l' & ->).
    rewrite parens_asg. cbn [children]. unfold lines_differ.
    cbn [children get_lineno option_nat_eqb].
    destruct (l =? l')%nat; cbn [negb andb orb]; [|reflexivity].
    intros ->. reflexivity. }
  destruct (general_form n) eqn:G.
  { destruct (proj1 HB eq_refl) as (p & l & i & q & l' & -> & Hi).
    rewrite (@parens_gen fl c p l i q l' Hi). unfold lines_differ.
    cbn [children get_lineno option_nat_eqb].
    destruct (l =? l')%nat; cbn [negb]; [discriminate|reflexivity]. }
  destruct (nested_form n) eqn:Nf.
  { destruct (proj1 HC eq_refl)
      as (ty & p0 & l0 & p & l & e & fs & q & l' & q0 & l1 & ->).
    assert (Hty : ty <> atom) by (intros ->; discriminate G).
    rewrite (@parens_nest fl c ty p0 l0 p l e fs q l' q0 l1 Hty).
    unfold lines_differ. cbn [children get_lineno option_nat_eqb].
    destruct (l =? l')%nat; cbn [negb]; [discriminate|reflexivity]. }
  intros _. apply parens_no_match. rewrite A, G, Nf. reflexivity.
Qed.

Lemma at_rest_parts n :
  at_rest n = true <->
  not_form n = false /\ none_right n = false /\ none_left n = false /\
  matches PATTERN_dict n = false /\ matches PATTERN_set n = false /\
  parens_kept n = true.
Proof.
  unfold at_rest.
  destruct (not_form n), (none_right n), (none_left n),
    (matches PATTERN_dict n), (matches PATTERN_set n), (parens_kept n);
    cbn; intuition discriminate.
Qed.

(** at a node at rest the fixers do nothing *)
Lemma rest_quiet fl c n :
  at_rest n = true -> try_fixers rules fl c n None = ([], inr n).
Proof.
  intro H. apply at_rest_parts in H.
  destruct H as (F1 & F2 & F3 & F4 & F5 & F6).
  rewrite fixers_rest by assumption. rewrite F4, F5. cbn [orb].
  apply parens_kept_quiet, F6.
Qed.

Lemma none_shape n :
  none_right n || none_left n = true ->
  exists a op b, n = Node comparison [a; op; b].
Proof.
  unfold none_right, none_left.
  destruct n as [|ty [|a [|op [|b [|]]]]]; cbn [children];
    rewrite ?andb_false_r; try discriminate.
  destruct (type_is (Some comparison) (Node ty [a; op; b])) eqn:T;
    [|discriminate].
  apply type_is_sym in T. destruct T as (cs & [= -> _]). eauto.
Qed.

(** What the fixers do at one node, when no callback raises. *)
Lemma fixers_step fl c n o r :
  try_fixers rules fl c n None = (o, inr r) ->
  (at_rest n = true /\ r = n) \/
  (exists p ln a op rest inv,
     n = Node not_test
           [Leaf NAME "not" p ln; Node comparison (a :: op :: rest)] /\
     assoc OPERATOR_INVERSIONS (strip (str op)) = Some inv /\
     r = Node comparison (set_prefix a p :: inv :: rest)) \/
  (exists a op b new,
     n = Node comparison [a; op; b] /\
     (new = kw "is" \/ new = Node comp_op [kw "is"; kw "not"]) /\
     r = Node comparison [a; new; b]) \/
  (exists lhs ep el p l i q,
     n = Node expr_stmt
           [lhs; Leaf EQUAL "=" ep el;
            Node atom [Leaf LPAR "(" p l; i; Leaf RPAR ")" q l]] /\
     node_type_is i testlist_gexp = false /\
     r = Node expr_stmt [lhs; Leaf EQUAL "=" ep el; set_prefix i p]) \/
  (exists p l i q,
     n = Node atom [Leaf LPAR "(" p l; i; Leaf RPAR ")" q l] /\
     inner_simple i = true /\ c <> [] /\ r = set_prefix i p) \/
  (exists ty p0 l0 p l e fs q q0 l1,
     n = Node ty
           [Leaf LPAR "(" p0 l0;
            Node atom
              [Leaf LPAR "(" p l; Node testlist_gexp [e; Node comp_for fs];
               Leaf RPAR ")" q l];
            Leaf RPAR ")" q0 l1] /\
     ty <> atom /\
     r = Node ty
           [Leaf LPAR "(" p0 l0;
            Node testlist_gexp [set_prefix e p; Node comp_for fs];
            Leaf RPAR ")" q0 l1]).
Proof.
  destruct (not_form n) eqn:F1.
  { apply not_form_shape in F1. destruct F1 as (p & ln & cs & -> & Hs).
    rewrite (@fixers_not fl c p ln cs Hs).
    destruct cs as [|a [|op rest]]; try discriminate.
    destruct (assoc OPERATOR_INVERSIONS (strip (str op))) as [inv|] eqn:E;
      [|discriminate].
    destruct c; [discriminate|]. intros [= <- <-].
    right. left. do 6 eexists. split; [reflexivity|]. split; [exact E|reflexivity]. }
  destruct (none_right n || none_left n) eqn:F2.
  { rewrite (@fixers_none fl c n F2).
    destruct (none_shape _ F2) as (a & op & b & ->). intros [= <- <-].
    right. right. left. do 4 eexists. split; [reflexivity|].
    split; [|reflexivity]. destruct (has_type op EQEQUAL); [left|right]; reflexivity. }
  apply orb_false_elim in F2. destruct F2 as [F2 F3].
  rewrite fixers_rest by assumption.
  destruct (matches PATTERN_dict n) eqn:D; [discriminate|].
  destruct (matches PATTERN_set n) eqn:S; [discriminate|]. cbn [orb].
  intro H. apply parens_cases in H. destruct H as [-> [[K ->]|H]].
  - left. split; [|reflexivity]. apply at_rest_parts. repeat split; assumption.
  - right. right. right. exact H.
Qed.

(** ** A run leaves every node at rest *)

Lemma all_at_rest_node ty cs :
  all_at_rest (Node ty cs) = at_rest (Node ty cs) && forallb all_at_rest cs.
Proof. reflexivity. Qed.

Lemma parsed_operators_node ty cs :
  parsed_operators (Node ty cs) =
  match ty, cs with
  | comparison, _ :: op :: _ => parsed_operator op
  | _, _ => true
  end && forallb parsed_operators cs.
Proof. reflexivity. Qed.

Lemma inverted_operator k inv :
  assoc OPERATOR_INVERSIONS k = Some inv ->
  all_at_rest inv = true /\ parsed_operator inv = true /\
  parsed_operators inv = true /\ type_is (Some atom) inv = false /\
  (is_eq_op inv = true -> k = "==" \/ k = "!=").
Proof.
  intro H. apply assoc_In in H. cbn in H.
  repeat (destruct H as [[= <- <-]|H];
          [repeat split; try (vm_compute; reflexivity);
           intro E; first [left; reflexivity | right; reflexivity
                          | vm_compute in E; discriminate E]|]).
  destruct H.
Qed.

Lemma no_dict_set n :
  (forall p ln rest v, n <> Node power (Leaf NAME v p ln :: rest)) ->
  matches PATTERN_dict n = false /\ matches PATTERN_set n = false.
Proof.
  intro H. split.
  - destruct (matches PATTERN_dict n) eqn:E; [|reflexivity].
    apply dict_shape in E. destruct E as (p & ln & rest & ->).
    exfalso. eapply H. reflexivity.
  - destruct (matches PATTERN_set n) eqn:E; [|reflexivity].
    apply set_shape in E. destruct E as (p & ln & rest & ->).
    exfalso. eapply H. reflexivity.
Qed.

(** a comparison whose operator is no atom and, between two operands one
    of which is [None], neither [==] nor [!=] *)
Lemma cmp_at_rest a m rest :
  type_is (Some atom) m = false ->
  match rest with
  | [b] => is_eq_op m && (is_lit NAME "None" a || is_lit NAME "None" b)
  | _ => false
  end = false ->
  at_rest (Node comparison (a :: m :: rest)) = true.
Proof.
  intros Hm H. apply at_rest_parts.
  destruct (@no_dict_set (Node comparison (a :: m :: rest))) as [D S];
    [discriminate|].
  split; [reflexivity|]. split; [|split; [|split; [exact D|split; [exact S|]]]].
  - unfold none_right. cbn [children].
    change (type_is (Some comparison) (Node comparison (a :: m :: rest))) with true.
    destruct rest as [|b [|]]; try reflexivity.
    destruct (is_eq_op m), (is_lit NAME "None" a), (is_lit NAME "None" b);
      cbn in *; try reflexivity; discriminate H.
  - unfold none_left. cbn [children].
    change (type_is (Some comparison) (Node comparison (a :: m :: rest))) with true.
    destruct rest as [|b [|]]; try reflexivity.
    destruct (is_eq_op m), (is_lit NAME "None" a), (is_lit NAME "None" b);
      cbn in *; try reflexivity; discriminate H.
  - unfold parens_kept.
    replace (assignment_form _) with false by reflexivity.
    replace (general_form _) with false by reflexivity.
    unfold nested_form, paren_atom. cbn [children].
    destruct rest as [|b [|]]; try reflexivity.
    rewrite Hm, andb_false_r. reflexivity.
Qed.

Ltac bools :=
  repeat match goal with
         | H : _ && _ = true |- _ => apply andb_prop in H; destruct H
         end.

Lemma paren_atom_set_prefix f t p :
  paren_atom f (set_prefix t p) = paren_atom f t.
Proof.
  destruct t as [|ty [|l [|i [|r [|]]]]]; try reflexivity.
  unfold paren_atom, is_lit. cbn [set_prefix children].
  rewrite leaf_is_set_prefix. reflexivity.
Qed.

(** The fixers at a node whose children are at rest leave a tree in which
    every node is at rest. *)
Lemma step_settles fl c n o r :
  forallb all_at_rest (children n) = true ->
  parsed_operators n = true ->
  try_fixers rules fl c n None = (o, inr r) ->
  all_at_rest r = true /\ parsed_operators r = true.
Proof.
  intros Hk Hp H. apply fixers_step in H.
  destruct H as [[K ->]|[H|[H|[H|[H|H]]]]].
  - split; [|exact Hp]. destruct n as [|ty cs]; [exact K|].
    rewrite all_at_rest_node, K. exact Hk.
  - destruct H as (p & ln & a & op & rest & inv & -> & E & ->).
    cbn [children forallb] in Hk. rewrite all_at_rest_node in Hk.
    cbn [forallb] in Hk.
    rewrite !parsed_operators_node in Hp. cbn [forallb] in Hp.
    rewrite parsed_operators_node in Hp. cbn [forallb] in Hp. bools.
    destruct (inverted_operator _ E) as (I1 & I2 & I3 & I4 & I5).
    rewrite all_at_rest_node, parsed_operators_node. cbn [forallb].
    rewrite all_at_rest_set_prefix, parsed_operators_set_prefix.
    repeat match goal with H : _ = true |- _ => rewrite H end.
    rewrite ?andb_true_r. split; [|reflexivity].
    apply cmp_at_rest; [exact I4|].
    destruct rest as [|b [|]]; try reflexivity.
    destruct (is_eq_op inv) eqn:Q; [|reflexivity]. cbn [andb].
    unfold is_lit at 1. rewrite leaf_is_set_prefix. fold (is_lit NAME "None" a).
    assert (O : is_eq_op op = true).
    { unfold parsed_operator in H7. apply andb_prop in H7.
      destruct H7 as [_ H7].
      destruct (I5 eq_refl) as [S|S]; rewrite S in H7; exact H7. }
    apply at_rest_parts in H0. destruct H0 as (_ & R & L & _).
    unfold none_right in R. unfold none_left in L. cbn [children] in R, L.
    change (type_is (Some comparison) (Node comparison [a; op; b])) with true in R, L.
    rewrite O in R, L. cbn [andb] in R. rewrite andb_true_r in L. cbn [andb] in L.
    rewrite R, L. reflexivity.
  - destruct H as (a & op & b & new & -> & Hn & ->).
    cbn [children forallb] in Hk.
    rewrite parsed_operators_node in Hp. cbn [forallb] in Hp. bools.
    rewrite all_at_rest_node, parsed_operators_node. cbn [forallb].
    assert (N : all_at_rest new = true /\ parsed_operator new = true /\
                parsed_operators new = true /\ type_is (Some atom) new = false /\
                is_eq_op new = false)
      by (destruct Hn as [-> | ->]; repeat split; vm_compute; reflexivity).
    destruct N as (N1 & N2 & N3 & N4 & N5).
    repeat match goal with H : _ = true |- _ => rewrite H end.
    rewrite ?andb_true_r. split; [|reflexivity].
    apply cmp_at_rest; [exact N4|]. rewrite N5. reflexivity.
  - destruct H as (lhs & ep & el & p & l & i & q & -> & T & ->).
    cbn [children forallb] in Hk. rewrite all_at_rest_node in Hk.
    cbn [forallb] in Hk.
    rewrite !parsed_operators_node in Hp. cbn [forallb] in Hp.
    rewrite parsed_operators_node in Hp. cbn [forallb] in Hp. bools.
    rewrite all_at_rest_node, parsed_operators_node. cbn [forallb].
    rewrite all_at_rest_set_prefix, parsed_operators_set_prefix.
    assert (Hi : inner_simple i = false).
    { assert (K : at_rest (Node atom [Leaf LPAR "(" p l; i; Leaf RPAR ")" q l])
                  = true) by assumption.
      apply at_rest_parts in K. destruct K as (_ & _ & _ & _ & _ & K).
      unfold parens_kept in K.
      replace (assignment_form _) with false in K by reflexivity.
      destruct (inner_simple i) eqn:Hi; [|reflexivity].
      replace (general_form _) with true in K
        by (unfold general_form, paren_atom; cbn; rewrite Hi; reflexivity).
      unfold lines_differ in K. cbn in K. rewrite Nat.eqb_refl in K.
      discriminate K. }
    repeat match goal with H : _ = true |- _ => rewrite H end.
    rewrite ?andb_true_r. split; [|reflexivity].
    apply at_rest_parts.
    destruct (@no_dict_set
                (Node expr_stmt [lhs; Leaf EQUAL "=" ep el; set_prefix i p]))
      as [D S]; [discriminate|].
    split; [reflexivity|]. split; [reflexivity|]. split; [reflexivity|].
    split; [exact D|]. split; [exact S|].
    unfold parens_kept.
    replace (assignment_form _) with false.
    2:{ unfold assignment_form. cbn [children].
        rewrite paren_atom_set_prefix. unfold inner_simple in Hi.
        apply orb_false_elim in Hi. destruct Hi as [_ ->].
        rewrite andb_false_r. reflexivity. }
    replace (general_form _) with false by reflexivity.
    replace (nested_form _) with false; [reflexivity|].
    unfold nested_form. cbn [children].
    change (paren_atom generator_clause (Leaf EQUAL "=" ep el)) with false.
    rewrite andb_false_r. reflexivity.
  - destruct H as (p & l & i & q & -> & Hi & Hc & ->).
    cbn [children forallb] in Hk.
    rewrite parsed_operators_node in Hp. cbn [forallb] in Hp. bools.
    rewrite all_at_rest_set_prefix, parsed_operators_set_prefix.
    split; assumption.
  - destruct H
      as (ty & p0 & l0 & p & l & e & fs & q & q0 & l1 & -> & Hty & ->).
    cbn [children forallb] in Hk. rewrite !all_at_rest_node in Hk.
    cbn [forallb] in Hk. rewrite all_at_rest_node in Hk. cbn [forallb] in Hk.
    assert (Hc : ty <> comparison).
    { intros ->. rewrite parsed_operators_node in Hp.
      apply andb_prop in Hp. destruct Hp as [Hp _]. discriminate Hp. }
    rewrite parsed_operators_node in Hp. cbn [forallb] in Hp.
    rewrite !parsed_operators_node in Hp. cbn [forallb] in Hp.
    rewrite parsed_operators_node in Hp. cbn [forallb] in Hp.
    rewrite all_at_rest_node, parsed_operators_node. cbn [forallb].
    change (Node testlist_gexp [set_prefix e p; Node comp_for fs])
      with (set_prefix (Node testlist_gexp [e; Node comp_for fs]) p).
    rewrite all_at_rest_set_prefix, parsed_operators_set_prefix.
    rewrite all_at_rest_node, parsed_operators_node. cbn [forallb].
    bools.
    repeat match goal with H : _ = true |- _ => rewrite H end.
    rewrite ?andb_true_r. split.
    + destruct ty; try contradiction; reflexivity.
    + destruct ty; try contradiction; reflexivity.
Qed.

(** ** The walk *)

Lemma traverse_by_node rs fl c ty cs :
  traverse_by rs fl c (Node ty cs) =
  match
    each (fun done todo' k =>
            traverse_by rs fl
              ({| f_type := ty; f_left := done; f_right := todo' |} :: c) k)
         [] cs []
  with
  | (o, inl e) => (o, inl e)
  | (o, inr cs') =>
      match try_fixers rs fl c (Node ty cs') None with
      | (o', res) => ((o ++ o')%list, res)
      end
  end.
Proof. reflexivity. Qed.

Lemma each_cons walk done k todo out :
  each walk done (k :: todo) out =
  match walk done todo k with
  | (o, inl e) => ((out ++ o)%list, inl e)
  | (o, inr k') => each walk (done ++ [k'])%list todo (out ++ o)%list
  end.
Proof. reflexivity. Qed.

(** children that the walk leaves as they are *)
Lemma each_fixed walk todo :
  Forall (fun k => forall done todo', walk done todo' k = ([], inr k)) todo ->
  forall done out, each walk done todo out = (out, inr (done ++ todo)%list).
Proof.
  induction 1 as [|k todo Hk _ IH]; intros done out.
  - cbn. rewrite app_nil_r. reflexivity.
  - rewrite each_cons, Hk, IH, app_nil_r, <- app_assoc. reflexivity.
Qed.

(** what holds between each child and what the walk leaves of it *)
Lemma each_related walk (Q : tree -> tree -> Prop) todo :
  Forall (fun k => forall done todo' o k',
                     walk done todo' k = (o, inr k') -> Q k k') todo ->
  forall done out o cs',
    each walk done todo out = (o, inr cs') ->
    exists new, cs' = (done ++ new)%list /\ Forall2 Q todo new.
Proof.
  induction 1 as [|k todo Hk _ IH]; intros done out o cs'.
  - cbn. intros [= <- <-]. exists []. rewrite app_nil_r. split; constructor.
  - rewrite each_cons. destruct (walk done todo k) as [o1 [e|k']] eqn:W;
      [discriminate|].
    intro H. apply IH in H. destruct H as (new & -> & HF).
    exists (k' :: new). rewrite <- app_assoc. split; [reflexivity|].
    constructor; [eapply Hk; exact W|exact HF].
Qed.

(** A tree in which every node is at rest comes out of the walk as it
    went in, and nothing is written. *)
Lemma walk_quiet fl t :
  all_at_rest t = true -> forall c, traverse_by rules fl c t = ([], inr t).
Proof.
  induction t as [ty v p ln|ty cs IH] using tree_induction; intros H c.
  - apply rest_quiet. reflexivity.
  - rewrite all_at_rest_node in H. apply andb_prop in H. destruct H as [H1 H2].
    rewrite traverse_by_node, each_fixed.
    + cbn [app]. rewrite rest_quiet by exact H1. reflexivity.
    + rewrite forallb_forall in H2. rewrite Forall_forall in IH |- *.
      intros k Hin done todo'. apply IH; [exact Hin|]. apply H2, Hin.
Qed.

Lemma operator_at_rest op : parsed_operator op = true -> all_at_rest op = true.
Proof.
  unfold parsed_operator. intro H. apply andb_prop in H. destruct H as [H _].
  destruct op as [|ty cs]; [reflexivity|].
  destruct ty; try discriminate H.
  destruct cs as [|[] [|[] [|]]]; try discriminate H. reflexivity.
Qed.

(** The walk leaves a tree in which every node is at rest. *)
Lemma walk_settles fl t :
  forall c o r,
    parsed_operators t = true ->
    traverse_by rules fl c t = (o, inr r) ->
    all_at_rest r = true /\ parsed_operators r = true.
Proof.
  induction t as [ty v p ln|ty cs IH] using tree_induction; intros c o r Hp.
  - apply step_settles; [reflexivity|exact Hp].
  - rewrite traverse_by_node.
    destruct (each _ [] cs []) as [o1 [e|cs']] eqn:E; [discriminate|].
    destruct (try_fixers rules fl c (Node ty cs') None) as [o2 res] eqn:T.
    intros [= <- ->].
    apply (@each_related _
             (fun k k' =>
                (parsed_operators k = true ->
                 all_at_rest k' = true /\ parsed_operators k' = true) /\
                (parsed_operator k = true -> k' = k))) in E.
    + destruct E as (new & -> & HF). cbn [app] in T.
      rewrite parsed_operators_node in Hp. apply andb_prop in Hp.
      destruct Hp as [Hop Hcs].
      assert (A : forallb all_at_rest new = true /\
                  forallb parsed_operators new = true).
      { clear T Hop IH. induction HF as [|k k' cs new [Hk _] _ IHF];
          [split; reflexivity|].
        cbn [forallb] in Hcs |- *. apply andb_prop in Hcs.
        destruct Hcs as [Hk1 Hcs].
        destruct (Hk Hk1) as [-> ->]. destruct (IHF Hcs) as [-> ->].
        split; reflexivity. }
      destruct A as [A1 A2].
      apply (@step_settles fl c (Node ty new) o2 r); [exact A1| |exact T].
      rewrite parsed_operators_node, A2, andb_true_r.
      destruct ty; try reflexivity.
      destruct HF as [|k0 k0' cs0 new0 _ HF]; [reflexivity|].
      destruct HF as [|op op' cs1 new1 [_ Ho] _]; [reflexivity|].
      rewrite (Ho Hop). exact Hop.
    + rewrite Forall_forall in IH |- *.
      intros k Hin done todo' ok k' W. split.
      * intro Hk. eapply IH; [exact Hin|exact Hk|exact W].
      * intro Hk. rewrite walk_quiet in W by (apply operator_at_rest, Hk).
        injection W as _ <-. reflexivity.
Qed.

(** ** Rule 2, then rule 1, in one walk *)

(** X13: in one run the walk comes to the comparison inside
    [not a == None] before it comes to the [not]: there rule 2 writes the
    operator [==] and puts [is] in its place; at the [not_test] node rule 1
    then turns [is] into [is not].  So [not a == None] becomes
    [a is not None], and the line written is the operator [==] of the
    input, not a [!=]. *)
Theorem walk_not_none fl c p ln ta va pa la pe le pn lnn :
  c <> [] ->
  traverse_by rules fl c
    (Node not_test
       [Leaf NAME "not" p ln;
        Node comparison
          [Leaf ta va pa la; Leaf EQEQUAL "==" pe le; Leaf NAME "None" pn lnn]]) =
  ([(pe ++ "==") ++ LF],
   inr (Node comparison
          [Leaf ta va p la;
           Node comp_op [Leaf NAME "is" " " 0; Leaf NAME "not" " " 0];
           Leaf NAME "None" pn lnn])).
Proof.
  intro Hc. rewrite traverse_by_node, each_cons.
  rewrite walk_quiet by reflexivity.
  rewrite each_cons, traverse_by_node.
  rewrite each_fixed
    by (repeat constructor; intros; apply walk_quiet; reflexivity).
  cbn [app]. rewrite fixers_none by reflexivity.
  cbn [has_type TOKEN_beq each app str].
  rewrite fixers_not by (vm_compute; discriminate).
  replace (assoc OPERATOR_INVERSIONS (strip (str (kw "is"))))
    with (Some (Node comp_op [Leaf NAME "is" " " 0; Leaf NAME "not" " " 0]))
    by reflexivity.
  destruct c; [contradiction|]. reflexivity.
Qed.

Lemma walk_not_none_witness :
  traverse_by rules []
    [{| f_type := simple_stmt; f_left := [];
        f_right := [Leaf NEWLINE LF "" 1] |};
     {| f_type := file_input; f_left := [];
        f_right := [Leaf ENDMARKER "" "" 2] |}]
    (Node not_test
       [Leaf NAME "not" "" 1;
        Node comparison
          [Leaf NAME "a" " " 1; Leaf EQEQUAL "==" " " 1;
           Leaf NAME "None" " " 1]]) =
  ([(" " ++ "==") ++ LF],
   inr (Node comparison
          [Leaf NAME "a" "" 1;
           Node comp_op [Leaf NAME "is" " " 0; Leaf NAME "not" " " 0];
           Leaf NAME "None" " " 1])).
Proof.
  apply (@walk_not_none []
           [{| f_type := simple_stmt; f_left := [];
               f_right := [Leaf NEWLINE LF "" 1] |};
            {| f_type := file_input; f_left := [];
               f_right := [Leaf ENDMARKER "" "" 2] |}]
           "" 1 NAME "a" " " 1 " " 1 " " 1).
  discriminate.
Defined.

(** ** A second run *)

(** C8, as the claim has it, fails: in [x = (not a == b)] with a line
    break after [not], rule 1 leaves [x = (a != b)] on one line, but the
    parentheses were read on the lines 1 and 2, and rule 4, which looks
    at these line numbers, keeps them, in a second walk over that tree
    too.  In the text read again both parentheses are on line 1, and a
    run takes them away: the second run gives another text than the
    first. *)
Lemma C8_second_run_differs :
  exists t1 t2,
    str src_broken_not = "x = (not" ++ LF ++ "a == b)" ++ LF /\
    run [] src_broken_not = ([], inr t1) /\
    str t1 = "x = (a != b)" ++ LF /\
    subtree t1 [0; 0; 2; 0] = Some (Leaf LPAR "(" " " 1) /\
    subtree t1 [0; 0; 2; 2] = Some (Leaf RPAR ")" "" 2) /\
    run [] t1 = ([], inr t1) /\
    str src_broken_not_out = str t1 /\
    run [] src_broken_not_out = ([], inr t2) /\
    str t2 = "x = a != b" ++ LF /\
    str t2 <> str t1.
Proof.
  do 2 eexists. split; [vm_compute; reflexivity|].
  split; [vm_compute; reflexivity|]. split; [vm_compute; reflexivity|].
  split; [vm_compute; reflexivity|]. split; [vm_compute; reflexivity|].
  split; [vm_compute; reflexivity|]. split; [vm_compute; reflexivity|].
  split; [vm_compute; reflexivity|].
  split; [vm_compute; reflexivity | vm_compute; discriminate].
Qed.

(** C8, amended: a second run over the tree that a run has left, with the
    line numbers its leaves were read with, changes nothing and writes
    nothing; so the text stays the same.  This holds for every tree in
    which the operator of each comparison is as the parser builds it
    ([parsed_operators]), whatever the first run rewrote and wrote. *)
Theorem C8_second_walk_changes_nothing
        (fl : list (string * bool)) (t : tree) (o : list string) (t1 : tree) :
  parsed_operators t = true ->
  run fl t = (o, inr t1) ->
  run fl t1 = ([], inr t1).
Proof.
  unfold run. intros Hp H. apply walk_settles in H; [|exact Hp].
  apply walk_quiet, H.
Qed.

Lemma C8_second_walk_changes_nothing_witness :
  exists t1,
    run [] src_paren_none = ([" ==" ++ LF], inr t1) /\
    str t1 = "None is x" ++ LF /\
    run [] t1 = ([], inr t1).
Proof.
  eexists. split; [vm_compute; reflexivity|]. split; [vm_compute; reflexivity|].
  apply (@C8_second_walk_changes_nothing [] src_paren_none [" ==" ++ LF]).
  - vm_compute. reflexivity.
  - vm_compute. reflexivity.
Defined.
